(** * Ledger: an encrypted income/expense ledger

  A shallow embedding of the [Ledger] Solidity contract and of the
  [useLedger] React hook that drives it, with the properties that the
  specification states about them.

  The contract delegates all encrypted arithmetic to the FHEVM library
  ([FHE.add], [FHE.gt], ...), which is not part of the repository.  It is
  modelled here by its ideal functionality: a coprocessor that maps
  32-byte handles to the clear values they encrypt.  The contract itself
  only ever stores and passes handles. *)

From Stdlib Require Import ZArith NArith Lia Bool List String Ascii.
From stdpp Require Import gmap strings list fin_maps pretty.

#[local] Open Scope Z_scope.

(** ** Solidity value types *)

Abbreviation bytes32 := N (only parsing).
Abbreviation address := N (only parsing).
Abbreviation uint256 := N (only parsing).
(** [euint32] and [ebool] are user-defined value types over [bytes32]. *)
Abbreviation euint32 := N (only parsing).
Abbreviation ebool := N (only parsing).
Abbreviation externalEuint32 := N (only parsing).
(** [bytes]: a byte string, one [N] below 256 per byte. *)
Abbreviation bytes := (list N) (only parsing).

(** ** The FHE coprocessor (ideal functionality of [@fhevm/solidity]) *)

Module FHE.

Definition two32 : Z := 2 ^ 32.

Inductive ciphertext : Type :=
| CtUint32 (v : Z)
| CtBool (b : bool).

(** What an input proof attests: the ciphertext was produced for this
    contract, by this user. *)
Record InputBinding : Type := mkInputBinding {
  in_contract : address;
  in_user : address;
  in_proof : bytes
}.

#[global] Instance InputBinding_eq_dec : EqDecision InputBinding.
Proof. solve_decision. Defined.

Record Coprocessor : Type := mkCoprocessor {
  next_handle : N;
  ciphertexts : gmap N ciphertext;
  acl : gset (N * N);
  inputs : gmap N InputBinding
}.

(** A fresh coprocessor: handle 0 is [bytes32(0)], never allocated. *)
Definition genesis : Coprocessor :=
  mkCoprocessor 1%N ∅ ∅ ∅.

(** Every operation returns a new handle for its result. *)
Definition alloc (ct : ciphertext) (c : Coprocessor) : N * Coprocessor :=
  (next_handle c,
   mkCoprocessor (N.succ (next_handle c))
                 (<[next_handle c := ct]> (ciphertexts c))
                 (acl c) (inputs c)).

(** The clear value behind a handle; an uninitialized or ill-typed handle
    reads as zero, as the library treats [bytes32(0)] operands. *)
Definition plain32 (c : Coprocessor) (h : euint32) : Z :=
  match ciphertexts c !! h with
  | Some (CtUint32 v) => v
  | _ => 0
  end.

Definition plainBool (c : Coprocessor) (h : ebool) : bool :=
  match ciphertexts c !! h with
  | Some (CtBool b) => b
  | _ => false
  end.

Definition asEuint32 (v : Z) : Coprocessor -> euint32 * Coprocessor :=
  alloc (CtUint32 (v mod two32)).

Definition add (a b : euint32) (c : Coprocessor) : euint32 * Coprocessor :=
  alloc (CtUint32 ((plain32 c a + plain32 c b) mod two32)) c.

Definition sub (a b : euint32) (c : Coprocessor) : euint32 * Coprocessor :=
  alloc (CtUint32 ((plain32 c a - plain32 c b) mod two32)) c.

Definition mul (a b : euint32) (c : Coprocessor) : euint32 * Coprocessor :=
  alloc (CtUint32 ((plain32 c a * plain32 c b) mod two32)) c.

Definition gt (a b : euint32) (c : Coprocessor) : ebool * Coprocessor :=
  alloc (CtBool (plain32 c b <? plain32 c a)) c.

(** [FHE.allow(v, who)] *)
Definition allow (v : N) (who : address) (c : Coprocessor) : Coprocessor :=
  mkCoprocessor (next_handle c) (ciphertexts c) ({[ (v, who) ]} ∪ acl c)
                (inputs c).

(** [FHE.fromExternal]: the input proof is checked against the contract
    and the sender; [None] is a revert. *)
Definition fromExternal (this sender : address) (h : externalEuint32)
    (proof : bytes) (c : Coprocessor) : option euint32 :=
  match inputs c !! h, ciphertexts c !! h with
  | Some b, Some (CtUint32 _) =>
      if decide (b = mkInputBinding this sender proof) then Some h else None
  | _, _ => None
  end.

(** The client side: [createEncryptedInput(contract, user).add32(v)
    .encrypt()] registers a ciphertext bound to (contract, user) and
    hands back its handle; [add32] rejects values outside 32 bits. *)
Definition encryptInput (contract user : address) (v : Z) (proof : bytes)
    (c : Coprocessor) : option (externalEuint32 * Coprocessor) :=
  if (0 <=? v) && (v <? two32) then
    let '(h, c') := alloc (CtUint32 v) c in
    Some (h, mkCoprocessor (next_handle c') (ciphertexts c') (acl c')
               (<[h := mkInputBinding contract user proof]> (inputs c')))
  else None.

(** *** Well-formed coprocessor states *)

(** Handles are allocated in increasing order from 1, 32-bit ciphertexts
    hold 32-bit values, and every registered input has a ciphertext. *)
Record wf (c : Coprocessor) : Prop := mkWf {
  wf_next : (0 < next_handle c)%N;
  wf_dom : forall h, is_Some (ciphertexts c !! h) ->
           (0 < h < next_handle c)%N;
  wf_range : forall h v, ciphertexts c !! h = Some (CtUint32 v) ->
             0 <= v < two32;
  wf_inputs : forall h, is_Some (inputs c !! h) ->
              is_Some (ciphertexts c !! h)
}.

(** A stored [euint32] is either uninitialized or names a 32-bit
    ciphertext; likewise for [ebool]. *)
Definition is_euint32 (c : Coprocessor) (h : N) : Prop :=
  h = 0%N \/ exists v, ciphertexts c !! h = Some (CtUint32 v).

Definition is_ebool (c : Coprocessor) (h : N) : Prop :=
  h = 0%N \/ exists b, ciphertexts c !! h = Some (CtBool b).

(** [extends c c']: [c'] was obtained from [c] by allocating further
    handles; every handle of [c] still names the same ciphertext. *)
Record extends (c c' : Coprocessor) : Prop := mkExtends {
  ext_next : (next_handle c <= next_handle c')%N;
  ext_old : forall h, (h < next_handle c)%N ->
            ciphertexts c' !! h = ciphertexts c !! h
}.

(** What other users of the coprocessor may do between two calls of the
    ledger: compute new ciphertexts and grant access to handles. *)
Definition in_range (ct : ciphertext) : Prop :=
  match ct with
  | CtUint32 v => 0 <= v < two32
  | CtBool _ => True
  end.

End FHE.

(** ** The contract *)

Module Ledger.

Record UserAccount : Type := mkUserAccount {
  balance : euint32;
  monthlyExpense : euint32;
  monthlyBudget : euint32;
  isOverBudget : ebool;
  isBudgetWarning : ebool;
  lastUpdateMonth : uint256
}.

Record Transaction : Type := mkTransaction {
  amount : euint32;
  timestamp : uint256;
  category : uint256;
  isIncome : bool;
  month : uint256
}.

Inductive Event : Type :=
| TransactionAdded (user : address) (transactionIndex : uint256)
| BudgetUpdated (user : address)
| BalanceUpdated (user : address).

(** Contract storage, the coprocessor it talks to, and the event log. *)
Record State : Type := mkState {
  fhe : FHE.Coprocessor;
  this : address;
  accounts : gmap N UserAccount;
  transactions : gmap N (list Transaction);
  categoryTotals : gmap (N * N) N;
  events : list Event
}.

(** A mapping slot that was never written reads as all zeroes. *)
Definition zeroAccount : UserAccount := mkUserAccount 0 0 0 0 0 0.

Definition account (s : State) (who : address) : UserAccount :=
  default zeroAccount (accounts s !! who).

Definition transactionsOf (s : State) (who : address) : list Transaction :=
  default [] (transactions s !! who).

Definition categoryTotal (s : State) (who : address) (key : uint256)
    : euint32 :=
  default 0%N (categoryTotals s !! (who, key)).

Definition deploy (this : address) (c : FHE.Coprocessor) : State :=
  mkState c this ∅ ∅ ∅ [].

(** *** Transactions as state transformers that may revert *)

Definition M (A : Type) : Type := State -> option (A * State).

Definition ret {A} (a : A) : M A := fun s => Some (a, s).

Definition bind {A B} (m : M A) (k : A -> M B) : M B :=
  fun s => match m s with
           | Some (a, s') => k a s'
           | None => None
           end.

Definition gets {A} (f : State -> A) : M A := fun s => Some (f s, s).

Definition modify (f : State -> State) : M unit := fun s => Some (tt, f s).

Declare Scope ledger_scope.
Delimit Scope ledger_scope with ledger.
Notation "x <- m ;; k" := (bind m (fun x => k))
  (at level 100, m at next level, right associativity) : ledger_scope.
Notation "m ;; k" := (bind m (fun _ => k))
  (at level 100, right associativity) : ledger_scope.
#[local] Open Scope ledger_scope.

Definition setFhe (c : FHE.Coprocessor) (s : State) : State :=
  mkState c (this s) (accounts s) (transactions s) (categoryTotals s)
          (events s).

Definition setAccount (who : address) (a : UserAccount) (s : State)
    : State :=
  mkState (fhe s) (this s) (<[who := a]> (accounts s)) (transactions s)
          (categoryTotals s) (events s).

(** Run a coprocessor operation. *)
Definition coproc {A} (op : FHE.Coprocessor -> A * FHE.Coprocessor) : M A :=
  fun s => let '(a, c) := op (fhe s) in Some (a, setFhe c s).

Definition coproc_ (op : FHE.Coprocessor -> FHE.Coprocessor) : M unit :=
  modify (fun s => setFhe (op (fhe s)) s).

(** Field-wise storage writes to [accounts[who]]. *)
Definition storeBalance (who : address) (h : euint32) : M unit :=
  modify (fun s => let a := account s who in
    setAccount who (mkUserAccount h (monthlyExpense a) (monthlyBudget a)
      (isOverBudget a) (isBudgetWarning a) (lastUpdateMonth a)) s).

Definition storeMonthlyExpense (who : address) (h : euint32) : M unit :=
  modify (fun s => let a := account s who in
    setAccount who (mkUserAccount (balance a) h (monthlyBudget a)
      (isOverBudget a) (isBudgetWarning a) (lastUpdateMonth a)) s).

Definition storeMonthlyBudget (who : address) (h : euint32) : M unit :=
  modify (fun s => let a := account s who in
    setAccount who (mkUserAccount (balance a) (monthlyExpense a) h
      (isOverBudget a) (isBudgetWarning a) (lastUpdateMonth a)) s).

Definition storeIsOverBudget (who : address) (h : ebool) : M unit :=
  modify (fun s => let a := account s who in
    setAccount who (mkUserAccount (balance a) (monthlyExpense a)
      (monthlyBudget a) h (isBudgetWarning a) (lastUpdateMonth a)) s).

Definition storeIsBudgetWarning (who : address) (h : ebool) : M unit :=
  modify (fun s => let a := account s who in
    setAccount who (mkUserAccount (balance a) (monthlyExpense a)
      (monthlyBudget a) (isOverBudget a) h (lastUpdateMonth a)) s).

Definition storeLastUpdateMonth (who : address) (m : uint256) : M unit :=
  modify (fun s => let a := account s who in
    setAccount who (mkUserAccount (balance a) (monthlyExpense a)
      (monthlyBudget a) (isOverBudget a) (isBudgetWarning a) m) s).

Definition pushTransaction (who : address) (t : Transaction) : M unit :=
  modify (fun s =>
    mkState (fhe s) (this s) (accounts s)
            (<[who := transactionsOf s who ++ [t]]> (transactions s))
            (categoryTotals s) (events s)).

Definition storeCategoryTotal (who : address) (key : uint256) (h : euint32)
    : M unit :=
  modify (fun s =>
    mkState (fhe s) (this s) (accounts s) (transactions s)
            (<[(who, key) := h]> (categoryTotals s)) (events s)).

Definition emit (e : Event) : M unit :=
  modify (fun s =>
    mkState (fhe s) (this s) (accounts s) (transactions s)
            (categoryTotals s) (events s ++ [e])).

(** *** The contract's functions; [sender] is [msg.sender] *)

Definition _isZero (v : bytes32) : bool := N.eqb v 0.

Definition _ensureNumericInitialized (sender : address) : M unit :=
  b <- gets (fun s => balance (account s sender)) ;;
  (if _isZero b then
     z <- coproc (FHE.asEuint32 0) ;; storeBalance sender z
   else ret tt) ;;
  e <- gets (fun s => monthlyExpense (account s sender)) ;;
  (if _isZero e then
     z <- coproc (FHE.asEuint32 0) ;; storeMonthlyExpense sender z
   else ret tt) ;;
  g <- gets (fun s => monthlyBudget (account s sender)) ;;
  (if _isZero g then
     z <- coproc (FHE.asEuint32 0) ;; storeMonthlyBudget sender z
   else ret tt).

Definition allowThis (v : bytes32) : M unit :=
  modify (fun s => setFhe (FHE.allow v (this s) (fhe s)) s).

Definition allow (v : bytes32) (who : address) : M unit :=
  coproc_ (FHE.allow v who).

Definition _allowIfNotZero (sender : address) (v : bytes32) : M unit :=
  if negb (_isZero v) then allowThis v ;; allow v sender else ret tt.



Definition getMonthlyBudget (sender : address) (s : State) : euint32 :=
  monthlyBudget (account s sender).

Definition getIsOverBudget (sender : address) (s : State) : ebool :=
  isOverBudget (account s sender).

Definition getIsBudgetWarning (sender : address) (s : State) : ebool :=
  isBudgetWarning (account s sender).

Definition getTransactionCount (sender : address) (s : State) : uint256 :=
  N.of_nat (length (transactionsOf s sender)).

Definition getTransaction (sender : address) (index : uint256) (s : State)
    : option Transaction :=
  if (index <? N.of_nat (length (transactionsOf s sender)))%N
  then transactionsOf s sender !! N.to_nat index
  else None.


Definition _updateBudgetFlags (sender : address) : M unit :=
  _ensureNumericInitialized sender ;;
  e <- gets (fun s => monthlyExpense (account s sender)) ;;
  g <- gets (fun s => monthlyBudget (account s sender)) ;;
  over <- coproc (FHE.gt e g) ;;
  storeIsOverBudget sender over ;;
  e <- gets (fun s => monthlyExpense (account s sender)) ;;
  ten <- coproc (FHE.asEuint32 10) ;;
  expenseTimes10 <- coproc (FHE.mul e ten) ;;
  g <- gets (fun s => monthlyBudget (account s sender)) ;;
  eight <- coproc (FHE.asEuint32 8) ;;
  budgetTimes8 <- coproc (FHE.mul g eight) ;;
  warn <- coproc (FHE.gt expenseTimes10 budgetTimes8) ;;
  storeIsBudgetWarning sender warn.

Definition fromExternal (sender : address) (h : externalEuint32)
    (proof : bytes) : M euint32 :=
  fun s => match FHE.fromExternal (this s) sender h proof (fhe s) with
           | Some v => Some (v, s)
           | None => None
           end.

Definition addTransaction (sender : address)
    (amountEuint32 : externalEuint32) (timestamp category : uint256)
    (isIncome : bool) (categoryKey month : uint256) (amountProof : bytes)
    : M unit :=
  _ensureNumericInitialized sender ;;
  amount <- fromExternal sender amountEuint32 amountProof ;;
  let newTransaction :=
    mkTransaction amount timestamp category isIncome month in
  pushTransaction sender newTransaction ;;
  b <- gets (fun s => balance (account s sender)) ;;
  (if isIncome then
     r <- coproc (FHE.add b amount) ;; storeBalance sender r
   else
     r <- coproc (FHE.sub b amount) ;; storeBalance sender r) ;;
  b <- gets (fun s => balance (account s sender)) ;;
  allowThis b ;;
  allow b sender ;;
  (if negb isIncome then
     last <- gets (fun s => lastUpdateMonth (account s sender)) ;;
     if N.eqb month last then
       e <- gets (fun s => monthlyExpense (account s sender)) ;;
       r <- coproc (FHE.add e amount) ;;
       storeMonthlyExpense sender r
     else
       storeMonthlyExpense sender amount ;;
       storeLastUpdateMonth sender month
   else ret tt) ;;
  t <- gets (fun s => categoryTotal s sender categoryKey) ;;
  (if _isZero t then
     z <- coproc (FHE.asEuint32 0) ;;
     storeCategoryTotal sender categoryKey z
   else ret tt) ;;
  t <- gets (fun s => categoryTotal s sender categoryKey) ;;
  r <- coproc (FHE.add t amount) ;;
  storeCategoryTotal sender categoryKey r ;;
  _updateBudgetFlags sender ;;
  b <- gets (fun s => balance (account s sender)) ;;
  _allowIfNotZero sender b ;;
  e <- gets (fun s => monthlyExpense (account s sender)) ;;
  _allowIfNotZero sender e ;;
  o <- gets (fun s => isOverBudget (account s sender)) ;;
  _allowIfNotZero sender o ;;
  w <- gets (fun s => isBudgetWarning (account s sender)) ;;
  _allowIfNotZero sender w ;;
  n <- gets (fun s => N.of_nat (length (transactionsOf s sender))) ;;
  emit (TransactionAdded sender (n - 1)%N) ;;
  emit (BalanceUpdated sender).

Definition setMonthlyBudget (sender : address)
    (budgetEuint32 : externalEuint32) (budgetProof : bytes) : M unit :=
  _ensureNumericInitialized sender ;;
  budget <- fromExternal sender budgetEuint32 budgetProof ;;
  storeMonthlyBudget sender budget ;;
  _updateBudgetFlags sender ;;
  g <- gets (fun s => monthlyBudget (account s sender)) ;;
  _allowIfNotZero sender g ;;
  o <- gets (fun s => isOverBudget (account s sender)) ;;
  _allowIfNotZero sender o ;;
  w <- gets (fun s => isBudgetWarning (account s sender)) ;;
  _allowIfNotZero sender w ;;
  emit (BudgetUpdated sender).

(** Indices of the caller's transactions of a given month, in order. *)
Fixpoint monthIndices (m : uint256) (i : N) (ts : list Transaction)
    : list uint256 :=
  match ts with
  | [] => []
  | t :: ts' =>
      if N.eqb (month t) m then i :: monthIndices m (N.succ i) ts'
      else monthIndices m (N.succ i) ts'
  end.

(** [queryTransactionsByMonth] makes two passes over the caller's
    transactions.  The first counts the matches, from [count]. *)
Fixpoint countLoop (m : uint256) (ts : list Transaction) (count : uint256)
    : uint256 :=
  match ts with
  | [] => count
  | t :: ts' =>
      countLoop m ts' (if N.eqb (month t) m then N.succ count else count)
  end.

(** The second writes [indices[index] = i] for every match; a write past
    the end of the array reverts. *)
Fixpoint collectLoop (m : uint256) (ts : list Transaction) (i index : uint256)
    (indices : list uint256) : option (list uint256) :=
  match ts with
  | [] => Some indices
  | t :: ts' =>
      if N.eqb (month t) m then
        if (index <? N.of_nat (length indices))%N then
          collectLoop m ts' (N.succ i) (N.succ index)
                      (<[N.to_nat index := i]> indices)
        else None
      else collectLoop m ts' (N.succ i) index indices
  end.

Definition queryTransactionsByMonth (sender : address) (m : uint256)
    (s : State) : option (list uint256) :=
  let userTransactions := transactionsOf s sender in
  let count := countLoop m userTransactions 0%N in
  collectLoop m userTransactions 0%N 0%N (replicate (N.to_nat count) 0%N).

(** *** Weakest preconditions for the transaction monad

    [wp m Q s]: run from [s], [m] does not revert and ends in a result
    and state that satisfy [Q]. *)

Definition wp {A} (m : M A) (Q : A -> State -> Prop) (s : State) : Prop :=
  match m s with
  | Some (a, s') => Q a s'
  | None => False
  end.

(** *** What a call leaves behind

    [account_holds c a vb ve vg fo fw]: in coprocessor [c] the five
    encrypted fields of [a] are initialized and encrypt these clear
    values. *)
Record account_holds (c : FHE.Coprocessor) (a : UserAccount)
    (vb ve vg : Z) (fo fw : bool) : Prop := mkAccountHolds {
  holds_balance : FHE.ciphertexts c !! balance a = Some (FHE.CtUint32 vb);
  holds_monthlyExpense :
    FHE.ciphertexts c !! monthlyExpense a = Some (FHE.CtUint32 ve);
  holds_monthlyBudget :
    FHE.ciphertexts c !! monthlyBudget a = Some (FHE.CtUint32 vg);
  holds_isOverBudget :
    FHE.ciphertexts c !! isOverBudget a = Some (FHE.CtBool fo);
  holds_isBudgetWarning :
    FHE.ciphertexts c !! isBudgetWarning a = Some (FHE.CtBool fw)
}.

(** The part of the state that a call by [sender] never touches. *)
Record call_frame (sender : address) (s s' : State) : Prop := mkCallFrame {
  frame_this : this s' = this s;
  frame_extends : FHE.extends (fhe s) (fhe s');
  frame_wf : FHE.wf (fhe s');
  frame_accounts : forall who, who <> sender ->
                   accounts s' !! who = accounts s !! who;
  frame_transactions : forall who, who <> sender ->
                       transactions s' !! who = transactions s !! who;
  frame_categoryTotals : forall who key, who <> sender ->
      categoryTotals s' !! (who, key) = categoryTotals s !! (who, key)
}.

(** The clear-text meaning of the two budget flags, as the contract
    computes them: [FHE.gt] on the operands, the products taken by
    [FHE.mul] on [euint32]. *)
Definition overBudget (expense budget : Z) : bool := budget <? expense.

Definition budgetWarning (expense budget : Z) : bool :=
  (budget * 8) mod FHE.two32 <? (expense * 10) mod FHE.two32.

(** What [addTransaction] leaves behind, in terms of the clear values
    before the call. *)
Record addTransaction_post (sender : address) (h : euint32)
    (ts cat : uint256) (inc : bool) (key mth : uint256) (s s' : State)
    : Prop := mkAddTransactionPost {
  at_frame : call_frame sender s s';
  at_transactions :
    transactions s' !! sender =
    Some (transactionsOf s sender ++ [mkTransaction h ts cat inc mth]);
  at_account :
    let a := account s sender in
    let va := FHE.plain32 (fhe s) h in
    let vb := FHE.plain32 (fhe s) (balance a) in
    let ve := FHE.plain32 (fhe s) (monthlyExpense a) in
    let vg := FHE.plain32 (fhe s) (monthlyBudget a) in
    let vb' := if inc then (vb + va) mod FHE.two32
               else (vb - va) mod FHE.two32 in
    let ve' := if inc then ve
               else if N.eqb mth (lastUpdateMonth a)
                    then (ve + va) mod FHE.two32 else va in
    account_holds (fhe s') (account s' sender) vb' ve' vg
                  (overBudget ve' vg) (budgetWarning ve' vg);
  at_lastUpdateMonth :
    lastUpdateMonth (account s' sender) =
    if inc then lastUpdateMonth (account s sender) else mth;
  at_reset :
    inc = false -> mth <> lastUpdateMonth (account s sender) ->
    monthlyExpense (account s' sender) = h;
  at_categoryTotal :
    FHE.ciphertexts (fhe s') !! categoryTotal s' sender key =
    Some (FHE.CtUint32
            ((FHE.plain32 (fhe s) (categoryTotal s sender key)
              + FHE.plain32 (fhe s) h) mod FHE.two32));
  at_categoryTotals : forall k, k <> key ->
    categoryTotals s' !! (sender, k) = categoryTotals s !! (sender, k);
  at_events :
    events s' =
    events s ++ [TransactionAdded sender
                   (N.of_nat (length (transactionsOf s sender)));
                 BalanceUpdated sender]
}.

(** What [setMonthlyBudget] leaves behind. *)
Record setMonthlyBudget_post (sender : address) (h : euint32) (s s' : State)
    : Prop := mkSetMonthlyBudgetPost {
  sb_frame : call_frame sender s s';
  sb_transactions : transactions s' = transactions s;
  sb_categoryTotals : categoryTotals s' = categoryTotals s;
  sb_account :
    let a := account s sender in
    let vb := FHE.plain32 (fhe s) (balance a) in
    let ve := FHE.plain32 (fhe s) (monthlyExpense a) in
    let vg' := FHE.plain32 (fhe s) h in
    account_holds (fhe s') (account s' sender) vb ve vg'
                  (overBudget ve vg') (budgetWarning ve vg');
  sb_monthlyBudget : monthlyBudget (account s' sender) = h;
  sb_balance :
    balance (account s sender) <> 0%N ->
    balance (account s' sender) = balance (account s sender);
  sb_monthlyExpense :
    monthlyExpense (account s sender) <> 0%N ->
    monthlyExpense (account s' sender) = monthlyExpense (account s sender);
  sb_lastUpdateMonth :
    lastUpdateMonth (account s' sender) = lastUpdateMonth (account s sender);
  sb_events : events s' = events s ++ [BudgetUpdated sender]
}.

(** The month of the most recent expense in a transaction list, [dflt]
    when there is none. *)
Fixpoint lastExpenseMonth (ts : list Transaction) (dflt : uint256)
    : uint256 :=
  match ts with
  | [] => dflt
  | t :: rest =>
      lastExpenseMonth rest (if isIncome t then dflt else month t)
  end.

(** The stored month is the month of the caller's last expense. *)
Definition month_invariant (s : State) : Prop :=
  forall who, lastUpdateMonth (account s who) =
              lastExpenseMonth (transactionsOf s who) 0%N.

(** An account as its owner sees it after decryption. *)
Definition clearAccount (c : FHE.Coprocessor) (a : UserAccount)
    : Z * Z * Z * bool * bool * uint256 :=
  (FHE.plain32 c (balance a), FHE.plain32 c (monthlyExpense a),
   FHE.plain32 c (monthlyBudget a), FHE.plainBool c (isOverBudget a),
   FHE.plainBool c (isBudgetWarning a), lastUpdateMonth a).

(** *** Reachable states *)

Inductive step (s : State) : State -> Prop :=
| step_encrypt contract user v proof h c :
    FHE.encryptInput contract user v proof (fhe s) = Some (h, c) ->
    step s (setFhe c s)
| step_foreign_alloc ct :
    FHE.in_range ct ->
    step s (setFhe (snd (FHE.alloc ct (fhe s))) s)
| step_foreign_allow v who :
    step s (setFhe (FHE.allow v who (fhe s)) s)
| step_addTransaction sender h ts cat inc key m proof s' :
    addTransaction sender h ts cat inc key m proof s = Some (tt, s') ->
    step s s'
| step_setMonthlyBudget sender h proof s' :
    setMonthlyBudget sender h proof s = Some (tt, s') ->
    step s s'.

Inductive reachable : State -> Prop :=
| reachable_deploy addr : reachable (deploy addr FHE.genesis)
| reachable_step s s' : reachable s -> step s s' -> reachable s'.

(** The shape of the storage: which fields are handles of which kind. *)
Record account_shape (c : FHE.Coprocessor) (a : UserAccount) : Prop :=
  mkAccountShape {
    shape_balance : FHE.is_euint32 c (balance a);
    shape_monthlyExpense : FHE.is_euint32 c (monthlyExpense a);
    shape_monthlyBudget : FHE.is_euint32 c (monthlyBudget a);
    shape_isOverBudget : FHE.is_ebool c (isOverBudget a);
    shape_isBudgetWarning : FHE.is_ebool c (isBudgetWarning a)
  }.

Record state_shape (s : State) : Prop := mkStateShape {
  shape_fhe : FHE.wf (fhe s);
  shape_accounts : forall who, account_shape (fhe s) (account s who);
  shape_transactions : forall who t, t ∈ transactionsOf s who ->
      exists v, FHE.ciphertexts (fhe s) !! amount t = Some (FHE.CtUint32 v);
  shape_categoryTotals : forall who key,
      FHE.is_euint32 (fhe s) (categoryTotal s who key)
}.

(** *** The history behind the stored totals *)







(** The access list after [FHE.allowThis(v); FHE.allow(v, sender)] for
    each [v] of [vs] in turn. *)
Definition granted (s : State) (sender : address) (vs : list bytes32)
    (al : gset (N * N)) : gset (N * N) :=
  foldl (fun al v => {[ (v, sender) ]} ∪ ({[ (v, this s) ]} ∪ al)) al vs.



(** Likewise for [setMonthlyBudget]: access to the budget and the two
    flags. *)
Definition setMonthlyBudget_access (sender : address) (s s' : State)
    : Prop :=
  let a' := account s' sender in
  FHE.acl (fhe s') =
  granted s sender
    [monthlyBudget a'; isOverBudget a'; isBudgetWarning a']
    (FHE.acl (fhe s)).

(** An account slot that no call has written yet. *)
Definition untouched (s : State) (who : address) : Prop :=
  account s who = zeroAccount /\ transactionsOf s who = [].

(** An account all of whose encrypted fields are set. *)
Definition initialized (a : UserAccount) : Prop :=
  balance a <> 0%N /\ monthlyExpense a <> 0%N /\ monthlyBudget a <> 0%N /\
  isOverBudget a <> 0%N /\ isBudgetWarning a <> 0%N.

End Ledger.


(** ** The frontend: contract lookup, mock bootstrap and the [useLedger] hook *)

Module Hook.

#[local] Open Scope string_scope.

(** The TypeScript type [`0x${string}`]: a string that starts with "0x". *)
Record HexString : Type := Hex { hex_digits : string }.

#[global] Instance HexString_eq_dec : EqDecision HexString.
Proof. solve_decision. Defined.

Definition hexToString (h : HexString) : string := "0x" ++ hex_digits h.

(** [ethers.ZeroAddress] and [ethers.ZeroHash]. *)
Definition ZeroAddress : HexString :=
  Hex "0000000000000000000000000000000000000000".

Definition ZeroHash : string :=
  "0x0000000000000000000000000000000000000000000000000000000000000000".

(** *** [getLedgerByChainId] and [isDeployed] *)

(** One entry of the generated [LedgerAddresses] table. *)
Record AddressEntry : Type := mkAddressEntry {
  entry_address : HexString;
  entry_chainId : option N;
  entry_chainName : option string
}.

(** [LedgerInfoType]; the [abi] field is always [LedgerABI] and is left
    out. *)
Record LedgerInfoType : Type := mkLedgerInfo {
  li_address : option HexString;
  li_chainId : option N;
  li_chainName : option string
}.

(** JavaScript truthiness of a [number | undefined] and of a
    [string | undefined]. *)
Definition truthyNumber (n : option N) : option N :=
  match n with
  | Some 0%N => None
  | other => other
  end.

Definition truthyString (s : option string) : option string :=
  match s with
  | Some EmptyString => None
  | other => other
  end.

(** [LedgerAddresses] is generated code outside the repository's sources;
    it is a parameter here, keyed by [chainId.toString()]. *)
Definition getLedgerByChainId (LedgerAddresses : gmap string AddressEntry)
    (chainId : option N) : LedgerInfoType :=
  match truthyNumber chainId with
  | None => mkLedgerInfo None None None
  | Some c =>
      match LedgerAddresses !! pretty c with
      | None => mkLedgerInfo None (Some c) None
      | Some entry =>
          if decide (entry_address entry = ZeroAddress)
          then mkLedgerInfo None (Some c) None
          else mkLedgerInfo (Some (entry_address entry))
                            (Some (default c (entry_chainId entry)))
                            (entry_chainName entry)
      end
  end.

(** [ledger] is always an object, so the [undefined] answer of the memo is
    never produced; a present address is a non-empty string. *)
Definition isDeployed (ledger : LedgerInfoType) : option bool :=
  Some (match li_address ledger with
        | Some a => negb (bool_decide (a = ZeroAddress))
        | None => false
        end).

(** *** [fhevmMockCreateInstance] *)

Record MockMetadata : Type := mkMockMetadata {
  ACLAddress : HexString;
  InputVerifierAddress : HexString;
  KMSVerifierAddress : HexString
}.

Record MockParameters : Type := mkMockParameters {
  rpcUrl : string;
  mock_chainId : N;
  metadata : MockMetadata
}.

(** The tuple returned by [eip712Domain()]:
    (bytes1, string, string, uint256, address, bytes32, uint256[]). *)
Record Eip712Domain : Type := mkEip712Domain {
  domain_fields : N;
  domain_name : string;
  domain_version : string;
  domain_chainId : N;
  domain_verifyingContract : HexString;
  domain_salt : N;
  domain_extensions : list N
}.

(** The configuration handed to [MockFhevmInstance.create]. *)
Record MockConfig : Type := mkMockConfig {
  aclContractAddress : HexString;
  config_chainId : N;
  gatewayChainId : N;
  inputVerifierContractAddress : HexString;
  kmsContractAddress : HexString;
  verifyingContractAddressDecryption : HexString;
  verifyingContractAddressInputVerification : HexString
}.

(** The instance, as the arguments it was created from: the provider's
    URL (passed twice) and the configuration; both property bags are
    empty. *)
Record MockInstance : Type := mkMockInstance {
  mock_provider : string;
  mock_config : MockConfig
}.

(** [chain url addr] answers the [eip712Domain()] call sent through the
    provider at [url] to the contract at [addr]; [inr e] is a rejected
    call, which makes the bootstrapper reject with the same error. *)
Definition fhevmMockCreateInstance
    (chain : string -> HexString -> Eip712Domain + string)
    (parameters : MockParameters) : MockInstance + string :=
  let provider := rpcUrl parameters in
  match chain provider (InputVerifierAddress (metadata parameters)) with
  | inr e => inr e
  | inl inputDomain =>
      let verifyingContractAddressInputVerification :=
        domain_verifyingContract inputDomain in
      match chain provider (KMSVerifierAddress (metadata parameters)) with
      | inr e => inr e
      | inl kmsDomain =>
          let verifyingContractAddressDecryption :=
            domain_verifyingContract kmsDomain in
          inl (mkMockInstance provider
                 (mkMockConfig
                    (ACLAddress (metadata parameters))
                    (mock_chainId parameters)
                    55815%N
                    (InputVerifierAddress (metadata parameters))
                    (KMSVerifierAddress (metadata parameters))
                    verifyingContractAddressDecryption
                    verifyingContractAddressInputVerification))
      end
  end.

(** *** Values held by the hook *)

Inductive ClearValue : Type :=
| CString (s : string)
| CBigint (z : Z)
| CBoolean (b : bool).

(** [ClearValueType]; at run time [clear] is [undefined] when the
    decryption result has no entry for the handle. *)
Record ClearValueType : Type := mkClearValue {
  cv_handle : string;
  cv_clear : option ClearValue
}.

#[global] Instance ClearValue_eq_dec : EqDecision ClearValue.
Proof. solve_decision. Defined.

#[global] Instance ClearValueType_eq_dec : EqDecision ClearValueType.
Proof. solve_decision. Defined.

Inductive JsValue : Type :=
| VUndefined
| VNull
| VBoolean (b : bool)
| VNumber (z : Z)
| VString (s : string)
| VClear (v : ClearValueType).

#[global] Instance JsValue_eq_dec : EqDecision JsValue.
Proof. solve_decision. Defined.

(** The [useState] cells of the hook. *)
Inductive Cell : Type :=
| BalanceHandle | ClearBalance
| MonthlyExpenseHandle | ClearMonthlyExpense
| MonthlyBudgetHandle | ClearMonthlyBudget
| IsOverBudgetHandle | ClearIsOverBudget
| IsBudgetWarningHandle | ClearIsBudgetWarning
| IsRefreshing | IsDecrypting | IsSubmitting | Message
| DebugEncryptionContractAddress | DebugEncryptionUserAddress
| DebugEncryptionChainId
| LastAddAmount | LastAddIsIncome | LastAddCategory | LastAddCategoryKey
| LastAddMonth | LastAddTimestamp | LastAddAmountHandle | LastAddAmountProof
| LastAddTxHash | LastAddReceiptStatus | LastAddError.

#[global] Instance Cell_eq_dec : EqDecision Cell.
Proof. solve_decision. Defined.

(** A [FhevmDecryptionSignature]. *)
Record Sig : Type := mkSig {
  privateKey : string;
  publicKey : string;
  signature : string;
  contractAddresses : list HexString;
  userAddress : HexString;
  startTimestamp : Z;
  durationDays : Z
}.

(** The result of [input.encrypt()]. *)
Record EncryptedInput : Type := mkEncryptedInput {
  handles : list (list Byte.byte);
  inputProof : string + list Byte.byte
}.

(** A transaction receipt; [status] may be [null]. *)
Record Receipt : Type := mkReceipt { status : option Z }.

Inductive Getter : Type :=
| GetBalance | GetMonthlyExpense | GetMonthlyBudget
| GetIsOverBudget | GetIsBudgetWarning.

(** Calls that leave the hook, in the order they are made.  Signers and
    FHEVM instances are objects, told apart by an identity. *)
Inductive Call : Type :=
| CallRefreshData
| CallGetter (contract : HexString) (signer : N) (g : Getter)
| CallLoadOrSign (instance : N) (contracts : list HexString) (signer : N)
| CallUserDecrypt (instance : N) (items : list (string * HexString))
    (sig : Sig)
| CallSetTimeout (ms : Z)
| CallGetAddress (signer : N)
| CallCreateEncryptedInput (instance : N) (contract : HexString)
    (user : string)
| CallAdd32 (value : Z)
| CallEncrypt
| CallAddTransaction (contract : HexString) (signer : N)
    (amountEuint32 : option (list Byte.byte)) (timestamp category : Z)
    (isIncome : bool) (categoryKey month : Z)
    (amountProof : string + list Byte.byte)
| CallSetMonthlyBudget (contract : HexString) (signer : N)
    (budgetEuint32 : option (list Byte.byte))
    (budgetProof : string + list Byte.byte)
| CallTxWait (hash : string).

(** What lives outside the handlers and may change while one of them
    awaits: the ledger the last render resolved, the chain and signer the
    wallet hook currently reports, and the clock. *)
Record Env : Type := mkEnv {
  ledgerRef : option LedgerInfoType;
  currentChainId : option N;
  currentSigner : option N;
  dateNow : Z;
  dateMonth : Z
}.

Record World : Type := mkWorld {
  cells : Cell -> JsValue;
  clearBalanceRef : option ClearValueType;
  isRefreshingRef : bool;
  isDecryptingRef : bool;
  isSubmittingRef : bool;
  env : Env;
  calls : list Call
}.

(** What the callbacks of one render close over. *)
Record Render : Type := mkRender {
  instance : option N;
  chainId : option N;
  ethersSigner : option N;
  ledger : LedgerInfoType;
  balanceHandle : option string;
  monthlyExpenseHandle : option string;
  monthlyBudgetHandle : option string
}.

(** How an awaited promise settles, and the environment found then. *)
Record Resume (T : Type) : Type := mkResume {
  after : Env;
  settled : T + string
}.

Arguments mkResume {T} _ _.
Arguments after {T} _.
Arguments settled {T} _.

(** *** Handlers as state transformers with [return] and [throw] *)

Inductive Outcome (A : Type) : Type :=
| Normal (a : A)
| Returned
| Thrown (e : string).

Arguments Normal {A} _.
Arguments Returned {A}.
Arguments Thrown {A} _.

Definition Run (A : Type) : Type := World -> Outcome A * World.

Definition ret {A} (a : A) : Run A := fun w => (Normal a, w).

Definition bind {A B} (m : Run A) (k : A -> Run B) : Run B :=
  fun w => match m w with
           | (Normal a, w') => k a w'
           | (Returned, w') => (Returned, w')
           | (Thrown e, w') => (Thrown e, w')
           end.

Definition return_ {A} : Run A := fun w => (Returned, w).

Definition throw {A} (e : string) : Run A := fun w => (Thrown e, w).

Definition get {A} (f : World -> A) : Run A := fun w => (Normal (f w), w).

Definition modify (f : World -> World) : Run unit :=
  fun w => (Normal tt, f w).

Declare Scope hook_scope.
Delimit Scope hook_scope with hook.
Notation "x <- m ;; k" := (bind m (fun x => k))
  (at level 100, m at next level, right associativity) : hook_scope.
Notation "m ;; k" := (bind m (fun _ => k))
  (at level 100, right associativity) : hook_scope.
#[local] Open Scope hook_scope.

(** [try { body } finally { fin }] *)
Definition tryFinally {A} (body : Run A) (fin : Run unit) : Run A :=
  fun w => let '(o, w1) := body w in
           match fin w1 with
           | (Normal _, w2) => (o, w2)
           | (Returned, w2) => (Returned, w2)
           | (Thrown e, w2) => (Thrown e, w2)
           end.

(** [try { body } catch (e) { handler }] *)
Definition tryCatch {A} (body : Run A) (handler : string -> Run A) : Run A :=
  fun w => match body w with
           | (Thrown e, w1) => handler e w1
           | other => other
           end.

(** Calling an async function without awaiting it: whatever it returns or
    throws is dropped. *)
Definition detached {A} (m : Run A) : Run unit :=
  fun w => (Normal tt, snd (m w)).

(** The state a handler leaves behind. *)
Definition exec {A} (m : Run A) (w : World) : World := snd (m w).

(** [post m Q w]: how [m] ends when run from [w], and in which state,
    satisfies [Q]. *)
Definition post {A} (m : Run A) (Q : Outcome A -> World -> Prop) (w : World)
    : Prop :=
  Q (fst (m w)) (snd (m w)).

Definition setState (c : Cell) (v : JsValue) : Run unit :=
  modify (fun w =>
    mkWorld (fun c' => if decide (c' = c) then v else cells w c')
            (clearBalanceRef w) (isRefreshingRef w) (isDecryptingRef w)
            (isSubmittingRef w) (env w) (calls w)).

Definition setClearBalanceRef (v : option ClearValueType) : Run unit :=
  modify (fun w =>
    mkWorld (cells w) v (isRefreshingRef w) (isDecryptingRef w)
            (isSubmittingRef w) (env w) (calls w)).

Definition setIsRefreshingRef (b : bool) : Run unit :=
  modify (fun w =>
    mkWorld (cells w) (clearBalanceRef w) b (isDecryptingRef w)
            (isSubmittingRef w) (env w) (calls w)).

Definition setIsDecryptingRef (b : bool) : Run unit :=
  modify (fun w =>
    mkWorld (cells w) (clearBalanceRef w) (isRefreshingRef w) b
            (isSubmittingRef w) (env w) (calls w)).

Definition setIsSubmittingRef (b : bool) : Run unit :=
  modify (fun w =>
    mkWorld (cells w) (clearBalanceRef w) (isRefreshingRef w)
            (isDecryptingRef w) b (env w) (calls w)).

Definition setEnv (e : Env) : Run unit :=
  modify (fun w =>
    mkWorld (cells w) (clearBalanceRef w) (isRefreshingRef w)
            (isDecryptingRef w) (isSubmittingRef w) e (calls w)).

(** Record a call made to the outside. *)
Definition call (c : Call) : Run unit :=
  modify (fun w =>
    mkWorld (cells w) (clearBalanceRef w) (isRefreshingRef w)
            (isDecryptingRef w) (isSubmittingRef w) (env w)
            (calls w ++ [c])).

(** [await c]: make the call, let the environment move on, and resume
    with the value or the rejection. *)
Definition await {T} (c : Call) (r : Resume T) : Run T :=
  call c ;;
  setEnv (after r) ;;
  match settled r with
  | inl v => ret v
  | inr e => throw e
  end.

(** [await new Promise(resolve => setTimeout(resolve, ms))] never
    rejects. *)
Definition awaitTimeout (ms : Z) (e : Env) : Run unit :=
  call (CallSetTimeout ms) ;; setEnv e.

(** [input.add32(value)] of the encrypted-input builder.  The builder is
    the SDK's: it takes an unsigned 32-bit integer and throws on any other
    value; [e] is the text of the error it throws then. *)
Definition isUint32 (v : Z) : bool :=
  (0 <=? v)%Z && (v <? 2 ^ 32)%Z.

Definition add32 (v : Z) (e : string) : Run unit :=
  call (CallAdd32 v) ;;
  if isUint32 v then ret tt else throw e.

(** The setters of the [useState] cells. *)
Definition ofString (s : option string) : JsValue :=
  match s with
  | Some s => VString s
  | None => VUndefined
  end.

Definition ofNumber (n : option Z) : JsValue :=
  match n with
  | Some n => VNumber n
  | None => VUndefined
  end.

Definition setBalanceHandle (v : option string) : Run unit :=
  setState BalanceHandle (ofString v).
Definition setMonthlyExpenseHandle (v : option string) : Run unit :=
  setState MonthlyExpenseHandle (ofString v).
Definition setMonthlyBudgetHandle (v : option string) : Run unit :=
  setState MonthlyBudgetHandle (ofString v).
Definition setIsOverBudgetHandle (v : option string) : Run unit :=
  setState IsOverBudgetHandle (ofString v).
Definition setIsBudgetWarningHandle (v : option string) : Run unit :=
  setState IsBudgetWarningHandle (ofString v).
Definition setClearBalance (v : ClearValueType) : Run unit :=
  setState ClearBalance (VClear v).
Definition setClearMonthlyExpense (v : ClearValueType) : Run unit :=
  setState ClearMonthlyExpense (VClear v).
Definition setClearMonthlyBudget (v : ClearValueType) : Run unit :=
  setState ClearMonthlyBudget (VClear v).
Definition setIsRefreshing (b : bool) : Run unit :=
  setState IsRefreshing (VBoolean b).
Definition setIsDecrypting (b : bool) : Run unit :=
  setState IsDecrypting (VBoolean b).
Definition setIsSubmitting (b : bool) : Run unit :=
  setState IsSubmitting (VBoolean b).
Definition setMessage (s : string) : Run unit :=
  setState Message (VString s).

(** String conversions used in messages and diagnostics. *)
Definition showClear (c : option ClearValue) : string :=
  match c with
  | None => "undefined"
  | Some (CString s) => s
  | Some (CBigint z) => pretty z
  | Some (CBoolean true) => "true"
  | Some (CBoolean false) => "false"
  end.

(** [receipt?.status] inside a template string. *)
Definition showStatus (r : option Receipt) : string :=
  match r with
  | None => "undefined"
  | Some (mkReceipt None) => "null"
  | Some (mkReceipt (Some n)) => pretty n
  end.

Definition statusValue (r : option Receipt) : JsValue :=
  match r with
  | None => VUndefined
  | Some (mkReceipt None) => VNull
  | Some (mkReceipt (Some n)) => VNumber n
  end.

Definition hexDigit (n : N) : string :=
  String.substring (N.to_nat n) 1 "0123456789abcdef".

Definition hexByte (b : Byte.byte) : string :=
  hexDigit (Byte.to_N b / 16) ++ hexDigit (Byte.to_N b mod 16).

(** [ethers.hexlify] on a byte array. *)
Definition hexlify (bs : list Byte.byte) : string :=
  "0x" ++ String.concat EmptyString (map hexByte bs).

(** Modelled from the spec: [sameChain] and [sameSigner] belong to the
    wallet hook [useMetaMaskEthersSigner], whose source is not part of the
    repository's sources here; the spec describes the guard as "comparing
    chain id / contract address / signer identity", so they compare their
    argument with the chain id and the signer currently reported. *)
Definition sameChain (w : World) (chainId : option N) : bool :=
  bool_decide (chainId = currentChainId (env w)).

Definition sameSigner (w : World) (ethersSigner : option N) : bool :=
  bool_decide (ethersSigner = currentSigner (env w)).

(** The [isStale] closure every handler defines. *)
Definition isStale (thisLedgerAddress : HexString) (thisChainId : option N)
    (thisEthersSigner : N) (w : World) : bool :=
  negb (bool_decide
          (Some thisLedgerAddress = (ledgerRef (env w) ≫= li_address)))
  || negb (sameChain w thisChainId)
  || negb (sameSigner w (Some thisEthersSigner)).

(** *** [refreshData] *)

(** The synchronous part: guards, the busy flag, and the five reads
    started by [Promise.all].  It yields the values it captured. *)
Definition refreshData_begin (r : Render) : Run (N * HexString * N) :=
  call CallRefreshData ;;
  w <- get id ;;
  if isRefreshingRef w then return_ else
  match truthyNumber (ledgerRef (env w) ≫= li_chainId),
        ledgerRef (env w) ≫= li_address,
        ethersSigner r with
  | Some thisChainId, Some thisLedgerAddress, Some thisEthersSigner =>
      setIsRefreshingRef true ;;
      setIsRefreshing true ;;
      call (CallGetter thisLedgerAddress thisEthersSigner GetBalance) ;;
      call (CallGetter thisLedgerAddress thisEthersSigner GetMonthlyExpense) ;;
      call (CallGetter thisLedgerAddress thisEthersSigner GetMonthlyBudget) ;;
      call (CallGetter thisLedgerAddress thisEthersSigner GetIsOverBudget) ;;
      call (CallGetter thisLedgerAddress thisEthersSigner GetIsBudgetWarning) ;;
      ret (thisChainId, thisLedgerAddress, thisEthersSigner)
  | _, _, _ =>
      setBalanceHandle None ;;
      setMonthlyExpenseHandle None ;;
      setMonthlyBudgetHandle None ;;
      return_
  end.

(** The [.then] and [.catch] callbacks. *)
Definition refreshData_settle (captured : N * HexString * N)
    (res : Resume (string * string * string * string * string)) : Run unit :=
  let '(thisChainId, thisLedgerAddress, thisEthersSigner) := captured in
  setEnv (after res) ;;
  match settled res with
  | inl (balance, expense, budget, overBudget, warning) =>
      w <- get id ;;
      (if sameChain w (Some thisChainId)
          && bool_decide (Some thisLedgerAddress
                          = (ledgerRef (env w) ≫= li_address))
          && sameSigner w (Some thisEthersSigner)
       then
         setBalanceHandle (Some balance) ;;
         setMonthlyExpenseHandle (Some expense) ;;
         setMonthlyBudgetHandle (Some budget) ;;
         setIsOverBudgetHandle (Some overBudget) ;;
         setIsBudgetWarningHandle (Some warning)
       else ret tt) ;;
      setIsRefreshingRef false ;;
      setIsRefreshing false
  | inr e =>
      setMessage ("Ledger data fetch failed! error=" ++ e) ;;
      setIsRefreshingRef false ;;
      setIsRefreshing false
  end.

Definition refreshData (r : Render)
    (res : Resume (string * string * string * string * string)) : Run unit :=
  captured <- refreshData_begin r ;;
  refreshData_settle captured res.

(** *** [decryptBalance] *)

Definition decryptBalance (r : Render) (sigR : Resume (option Sig))
    (decR : Resume (gmap string ClearValue)) : Run unit :=
  w <- get id ;;
  if isRefreshingRef w || isDecryptingRef w then return_ else
  match li_address (ledger r), instance r, ethersSigner r,
        truthyString (balanceHandle r) with
  | Some thisLedgerAddress, Some inst, Some thisEthersSigner,
    Some thisBalanceHandle =>
      if bool_decide (Some thisBalanceHandle
                      = (cv_handle <$> clearBalanceRef w))
      then return_ else
      if bool_decide (thisBalanceHandle = ZeroHash) then
        setClearBalance (mkClearValue thisBalanceHandle (Some (CBigint 0))) ;;
        setClearBalanceRef
          (Some (mkClearValue thisBalanceHandle (Some (CBigint 0)))) ;;
        return_
      else
      let thisChainId := chainId r in
      setIsDecryptingRef true ;;
      setIsDecrypting true ;;
      setMessage "Start decrypting balance..." ;;
      detached
        (tryFinally
           (sig <- await (CallLoadOrSign inst [thisLedgerAddress]
                            thisEthersSigner) sigR ;;
            match sig with
            | None =>
                setMessage "Unable to build FHEVM decryption signature" ;;
                return_
            | Some sig =>
                stale <- get (isStale thisLedgerAddress thisChainId
                                thisEthersSigner) ;;
                if stale : bool then
                  setMessage "Ignore FHEVM decryption" ;; return_
                else
                setMessage "Call FHEVM userDecrypt..." ;;
                res <- await (CallUserDecrypt inst
                                [(thisBalanceHandle, thisLedgerAddress)] sig)
                             decR ;;
                setMessage "FHEVM userDecrypt completed!" ;;
                stale <- get (isStale thisLedgerAddress thisChainId
                                thisEthersSigner) ;;
                if stale : bool then
                  setMessage "Ignore FHEVM decryption" ;; return_
                else
                setClearBalance
                  (mkClearValue thisBalanceHandle
                                (res !! thisBalanceHandle)) ;;
                setClearBalanceRef
                  (Some (mkClearValue thisBalanceHandle
                                      (res !! thisBalanceHandle))) ;;
                setMessage ("Balance decrypted: "
                            ++ showClear (res !! thisBalanceHandle))
            end)
           (setIsDecryptingRef false ;; setIsDecrypting false))
  | _, _, _, _ => return_
  end.

(** *** [decryptStats] *)

(** [h && h !== ethers.ZeroHash] *)
Definition decryptable (h : option string) : option string :=
  match truthyString h with
  | Some s => if bool_decide (s = ZeroHash) then None else Some s
  | None => None
  end.

Definition decryptStats (r : Render) (sigR : Resume (option Sig))
    (decR : Resume (gmap string ClearValue)) : Run unit :=
  w <- get id ;;
  if isRefreshingRef w || isDecryptingRef w then return_ else
  match li_address (ledger r), instance r, ethersSigner r with
  | Some thisLedgerAddress, Some inst, Some thisEthersSigner =>
      match truthyString (monthlyExpenseHandle r),
            truthyString (monthlyBudgetHandle r) with
      | None, None => return_
      | _, _ =>
      let thisChainId := chainId r in
      let thisExpenseHandle := monthlyExpenseHandle r in
      let thisBudgetHandle := monthlyBudgetHandle r in
      setIsDecryptingRef true ;;
      setIsDecrypting true ;;
      setMessage "Start decrypting statistics..." ;;
      detached
        (tryFinally
           (sig <- await (CallLoadOrSign inst [thisLedgerAddress]
                            thisEthersSigner) sigR ;;
            match sig with
            | None =>
                setMessage "Unable to build FHEVM decryption signature" ;;
                return_
            | Some sig =>
                stale <- get (isStale thisLedgerAddress thisChainId
                                thisEthersSigner) ;;
                if stale : bool then
                  setMessage "Ignore FHEVM decryption" ;; return_
                else
                setMessage "Call FHEVM userDecrypt for statistics..." ;;
                let decryptItems :=
                  (match decryptable thisExpenseHandle with
                   | Some h => [(h, thisLedgerAddress)]
                   | None => []
                   end ++
                   match decryptable thisBudgetHandle with
                   | Some h => [(h, thisLedgerAddress)]
                   | None => []
                   end)%list in
                match decryptItems with
                | [] => setMessage "No statistics data to decrypt" ;; return_
                | _ :: _ =>
                res <- await (CallUserDecrypt inst decryptItems sig) decR ;;
                setMessage "FHEVM userDecrypt completed!" ;;
                stale <- get (isStale thisLedgerAddress thisChainId
                                thisEthersSigner) ;;
                if stale : bool then
                  setMessage "Ignore FHEVM decryption" ;; return_
                else
                match decryptable thisExpenseHandle with
                | Some h =>
                    setClearMonthlyExpense
                      (mkClearValue h
                         (Some (default (CBigint 0) (res !! h))))
                | None => ret tt
                end ;;
                match decryptable thisBudgetHandle with
                | Some h =>
                    setClearMonthlyBudget
                      (mkClearValue h
                         (Some (default (CBigint 0) (res !! h))))
                | None => ret tt
                end ;;
                setMessage "Statistics decrypted successfully"
                end
            end)
           (setIsDecryptingRef false ;; setIsDecrypting false))
      end
  | _, _, _ => return_
  end.

(** *** [addTransaction] *)

Definition proofToString (p : string + list Byte.byte) : string :=
  match p with
  | inl s => s
  | inr bs => hexlify bs
  end.

Definition addTransaction (r : Render)
    (amount : Z) (isIncome : bool) (category categoryKey : Z)
    (timerE : Env) (addrR : Resume string) (add32E : string)
    (encR : Resume EncryptedInput)
    (txR : Resume string) (waitR : Resume (option Receipt)) : Run unit :=
  w <- get id ;;
  if isRefreshingRef w || isSubmittingRef w then return_ else
  match li_address (ledger r), instance r, ethersSigner r with
  | Some thisLedgerAddress, Some inst, Some thisEthersSigner =>
      let thisChainId := chainId r in
      setIsSubmittingRef true ;;
      setIsSubmitting true ;;
      setMessage "Starting transaction encryption..." ;;
      detached
        (tryFinally
           (tryCatch
              (awaitTimeout 100 timerE ;;
               userAddr <- await (CallGetAddress thisEthersSigner) addrR ;;
               setState DebugEncryptionContractAddress
                 (VString (hexToString thisLedgerAddress)) ;;
               setState DebugEncryptionUserAddress (VString userAddr) ;;
               setState DebugEncryptionChainId
                 (ofNumber (Z.of_N <$> thisChainId)) ;;
               setState LastAddAmount (VNumber amount) ;;
               setState LastAddIsIncome (VBoolean isIncome) ;;
               setState LastAddCategory (VNumber category) ;;
               setState LastAddCategoryKey (VNumber categoryKey) ;;
               call (CallCreateEncryptedInput inst thisLedgerAddress
                       userAddr) ;;
               add32 amount add32E ;;
               amountEnc <- await CallEncrypt encR ;;
               setState LastAddAmountHandle
                 (ofString (hexlify <$> head (handles amountEnc))) ;;
               setState LastAddAmountProof
                 (VString (proofToString (inputProof amountEnc))) ;;
               stale <- get (isStale thisLedgerAddress thisChainId
                               thisEthersSigner) ;;
               if stale : bool then
                 setMessage "Ignore transaction submission" ;; return_
               else
               setMessage "Submitting transaction..." ;;
               month <- get (fun w => dateMonth (env w) + 1) ;;
               timestamp <- get (fun w => dateNow (env w) / 1000) ;;
               setState LastAddMonth (VNumber month) ;;
               setState LastAddTimestamp (VNumber timestamp) ;;
               hash <- await (CallAddTransaction thisLedgerAddress
                                thisEthersSigner
                                (head (handles amountEnc))
                                timestamp category isIncome categoryKey
                                month (inputProof amountEnc)) txR ;;
               setMessage ("Wait for tx:" ++ hash ++ "...") ;;
               setState LastAddTxHash (VString hash) ;;
               receipt <- await (CallTxWait hash) waitR ;;
               setMessage ("Transaction completed status="
                           ++ showStatus receipt) ;;
               setState LastAddReceiptStatus (statusValue receipt) ;;
               stale <- get (isStale thisLedgerAddress thisChainId
                               thisEthersSigner) ;;
               if stale : bool then
                 setMessage "Ignore transaction submission" ;; return_
               else
               detached (refreshData_begin r))
              (fun e =>
                 setMessage ("Transaction failed! " ++ e) ;;
                 setState LastAddError (VString e)))
           (setIsSubmittingRef false ;; setIsSubmitting false))
  | _, _, _ => return_
  end.

(** *** [setBudget] *)

Definition setBudget (r : Render) (budget : Z)
    (timerE : Env) (addrR : Resume string) (add32E : string)
    (encR : Resume EncryptedInput)
    (txR : Resume string) (waitR : Resume (option Receipt)) : Run unit :=
  w <- get id ;;
  if isRefreshingRef w || isSubmittingRef w then return_ else
  match li_address (ledger r), instance r, ethersSigner r with
  | Some thisLedgerAddress, Some inst, Some thisEthersSigner =>
      let thisChainId := chainId r in
      setIsSubmittingRef true ;;
      setIsSubmitting true ;;
      setMessage "Starting budget encryption..." ;;
      detached
        (tryFinally
           (tryCatch
              (awaitTimeout 100 timerE ;;
               userAddr <- await (CallGetAddress thisEthersSigner) addrR ;;
               call (CallCreateEncryptedInput inst thisLedgerAddress
                       userAddr) ;;
               add32 budget add32E ;;
               enc <- await CallEncrypt encR ;;
               stale <- get (isStale thisLedgerAddress thisChainId
                               thisEthersSigner) ;;
               if stale : bool then
                 setMessage "Ignore budget submission" ;; return_
               else
               setMessage "Setting budget..." ;;
               hash <- await (CallSetMonthlyBudget thisLedgerAddress
                                thisEthersSigner (head (handles enc))
                                (inputProof enc)) txR ;;
               setMessage ("Wait for tx:" ++ hash ++ "...") ;;
               receipt <- await (CallTxWait hash) waitR ;;
               setMessage ("Budget set completed status="
                           ++ showStatus receipt) ;;
               stale <- get (isStale thisLedgerAddress thisChainId
                               thisEthersSigner) ;;
               if stale : bool then
                 setMessage "Ignore budget submission" ;; return_
               else
               detached (refreshData_begin r))
              (fun e => setMessage ("Budget setting failed! " ++ e)))
           (setIsSubmittingRef false ;; setIsSubmitting false))
  | _, _, _ => return_
  end.

(** *** Vocabulary for the properties *)

(** The calls a handler adds to the log when run from [w]. *)
Definition emitted {A} (m : Run A) (w : World) : list Call :=
  drop (length (calls w)) (calls (exec m w)).

Definition isUserDecrypt (c : Call) : bool :=
  match c with
  | CallUserDecrypt _ _ _ => true
  | _ => false
  end.

(** A call that sends a transaction to the contract. *)
Definition isContractWrite (c : Call) : bool :=
  match c with
  | CallAddTransaction _ _ _ _ _ _ _ _ _ => true
  | CallSetMonthlyBudget _ _ _ _ => true
  | _ => false
  end.

Definition isRefreshCall (c : Call) : bool :=
  match c with
  | CallRefreshData => true
  | _ => false
  end.

(** In environment [e] the contract address, the chain id and the signer
    are still the ones render [r] captured. *)
Definition sameIdentity (r : Render) (e : Env) : Prop :=
  (ledgerRef e ≫= li_address) = li_address (ledger r) /\
  currentChainId e = chainId r /\
  currentSigner e = ethersSigner r.

#[global] Instance sameIdentity_dec r e : Decision (sameIdentity r e).
Proof. unfold sameIdentity. apply _. Defined.

(** The guard clauses of [decryptBalance] let the call through. *)
Definition decryptBalanceReady (r : Render) (w : World) : Prop :=
  isRefreshingRef w = false /\ isDecryptingRef w = false /\
  is_Some (li_address (ledger r)) /\ is_Some (instance r) /\
  is_Some (ethersSigner r) /\
  (cv_handle <$> clearBalanceRef w) <> balanceHandle r.

(** Who gets to submit.  [submitter r w v addrR encR] names the
    contract, the instance, the signer, the user address and the encrypted
    input of the submission that [addTransaction] or [setBudget] makes for
    the value [v], if it makes one: the handler is idle, all three
    prerequisites are there, the address lookup succeeds, [v] is an
    unsigned 32-bit integer, the encryption succeeds, and the identity is
    unchanged when the encryption returns. *)
Definition submitter (r : Render) (w : World) (v : Z)
    (addrR : Resume string) (encR : Resume EncryptedInput)
    : option (HexString * N * N * string * EncryptedInput) :=
  if isRefreshingRef w || isSubmittingRef w then None else
  match li_address (ledger r), instance r, ethersSigner r,
        settled addrR, settled encR with
  | Some a, Some inst, Some sg, inl userAddr, inl enc =>
      if isUint32 v then
        if decide (sameIdentity r (after encR))
        then Some (a, inst, sg, userAddr, enc) else None
      else None
  | _, _, _, _, _ => None
  end.

(** The calls by which a handler turns a value into an encrypted input. *)
Definition isEncryptionCall (c : Call) : bool :=
  match c with
  | CallCreateEncryptedInput _ _ _ | CallAdd32 _ | CallEncrypt => true
  | _ => false
  end.

(** *** A concrete render and world, used to exercise the definitions *)

Definition demoLedger : HexString :=
  Hex "5FbDB2315678afecb367f032d93F642f64180aa3".

Definition demoTable : gmap string AddressEntry :=
  <["31337" := mkAddressEntry demoLedger (Some 31337%N) (Some "hardhat")]>
  (<["11155111" := mkAddressEntry ZeroAddress (Some 11155111%N)
                     (Some "sepolia")]> ∅).

Definition demoRender (h : option string) : Render :=
  mkRender (Some 1%N) (Some 31337%N) (Some 2%N)
           (getLedgerByChainId demoTable (Some 31337%N)) h None None.

Definition demoEnv : Env :=
  mkEnv (Some (getLedgerByChainId demoTable (Some 31337%N)))
        (Some 31337%N) (Some 2%N) 1700000000123 10.

(** The wallet has switched to another chain. *)
Definition switchedEnv : Env :=
  mkEnv (Some (getLedgerByChainId demoTable (Some 11155111%N)))
        (Some 11155111%N) (Some 2%N) 1700000005000 10.

Definition demoWorld : World :=
  mkWorld (fun _ => VUndefined) None false false false demoEnv [].

(** The same world while a refresh is in flight. *)
Definition refreshingWorld : World :=
  mkWorld (fun _ => VUndefined) None true false false demoEnv [].

(** What the SDK says when [add32] gets a value that is too large. *)
Definition demoRangeError : string :=
  "Error: The value exceeds the limit for 32bits integer (4294967295).".

Definition demoEncrypted : EncryptedInput :=
  mkEncryptedInput [[Byte.xaa; Byte.x01]] (inr [Byte.xbb]).

Definition demoChain (url : string) (a : HexString) : Eip712Domain + string :=
  if decide (a = Hex "901F8942346f7AB3a01F6D7613119Bca447Bb030")
  then inl (mkEip712Domain 15 "InputVerification" "1" 10901
              (Hex "812b06e1CDCE800494b79fFE4f925A504a9A9810") 0 [])
  else if decide (a = Hex "36772142b74871f255CbD7A3e89B401d3e45825f")
  then inl (mkEip712Domain 15 "Decryption" "1" 10901
              (Hex "5ffdaAB0373E62E2ea2944776209aEf29E631A64") 0 [])
  else inr "call revert exception".

Definition demoParameters : MockParameters :=
  mkMockParameters "http://localhost:8545" 31337
    (mkMockMetadata (Hex "50157CFfD6bBFA2DECe204a89ec419c23ef5755D")
                    (Hex "901F8942346f7AB3a01F6D7613119Bca447Bb030")
                    (Hex "36772142b74871f255CbD7A3e89B401d3e45825f")).

End Hook.

(** ** A concrete session, used to exercise the definitions *)

Module Demo.

Definition ledgerAddr : address := 1000%N.
Definition alice : address := 7%N.
Definition bob : address := 8%N.

(** The state after a client-side encryption for the ledger. *)
Definition encryptFor (s : Ledger.State) (user : address) (v : Z)
    (proof : bytes) : Ledger.State :=
  match FHE.encryptInput (Ledger.this s) user v proof (Ledger.fhe s) with
  | Some (_, c) => Ledger.setFhe c s
  | None => s
  end.

(** The state after a call; a reverted call leaves the state as it was. *)
Definition call (m : Ledger.M unit) (s : Ledger.State) : Ledger.State :=
  match m s with
  | Some (_, s') => s'
  | None => s
  end.

Definition s0 : Ledger.State := Ledger.deploy ledgerAddr FHE.genesis.

(** Alice encrypts 500 (handle 1) and books it as an expense of category 3
    in month 11. *)
Definition s1 : Ledger.State := encryptFor s0 alice 500 [1%N; 2%N].

Definition s2 : Ledger.State :=
  call (Ledger.addTransaction alice 1%N 1700000000%N 3%N false 3%N 11%N
          [1%N; 2%N]) s1.

(** She encrypts a budget of 1000 (handle 14) and sets it. *)
Definition s3 : Ledger.State := encryptFor s2 alice 1000 [3%N].

Definition s4 : Ledger.State :=
  call (Ledger.setMonthlyBudget alice 14%N [3%N]) s3.

(** Bob books an expense of 429496730: ten times that is 2^32 + 4. *)
Definition t1 : Ledger.State := encryptFor s0 bob 429496730 [9%N].

Definition t2 : Ledger.State :=
  call (Ledger.addTransaction bob 1%N 1700000000%N 0%N false 0%N 11%N
          [9%N]) t1.

(** Then he sets a budget of 1. *)
Definition t3 : Ledger.State := encryptFor t2 bob 1 [10%N].

Definition t4 : Ledger.State :=
  call (Ledger.setMonthlyBudget bob 14%N [10%N]) t3.

(** Encrypt a value for [user] and book it under the handle that the
    encryption hands back. *)
Definition book (s : Ledger.State) (user : address) (v : Z) (proof : bytes)
    (ts cat : uint256) (inc : bool) (key m : uint256) : Ledger.State :=
  call (Ledger.addTransaction user (FHE.next_handle (Ledger.fhe s)) ts cat
          inc key m proof)
       (encryptFor s user v proof).

(** Alice goes on: a salary of 2000 in month 12, another 300 spent in
    month 11, then 50 spent in month 12. *)
Definition s5 : Ledger.State :=
  book s4 alice 2000 [4%N] 1700000100%N 5%N true 5%N 12%N.

Definition s6 : Ledger.State :=
  book s5 alice 300 [5%N] 1700000200%N 0%N false 0%N 11%N.

Definition s7 : Ledger.State :=
  book s6 alice 50 [6%N] 1700000300%N 0%N false 0%N 12%N.

End Demo.

(** * Properties *)

(** ** The coprocessor: allocation never disturbs existing handles *)

Module FHEFacts.
Import FHE.

Lemma two32_pos : 0 < two32.
Proof. reflexivity. Qed.

Lemma alloc_fst ct c : fst (alloc ct c) = next_handle c.
Proof. reflexivity. Qed.

Lemma alloc_lookup_new ct c :
  ciphertexts (snd (alloc ct c)) !! next_handle c = Some ct.
Proof. cbn. apply lookup_insert_eq. Qed.

Lemma alloc_lookup_old ct c h :
  (h < next_handle c)%N ->
  ciphertexts (snd (alloc ct c)) !! h = ciphertexts c !! h.
Proof. intros Hh. cbn. apply lookup_insert_ne. lia. Qed.

Lemma plain32_alloc_old ct c h :
  (h < next_handle c)%N -> plain32 (snd (alloc ct c)) h = plain32 c h.
Proof. intros Hh. unfold plain32. by rewrite alloc_lookup_old. Qed.

Lemma plain32_allow v who c h : plain32 (allow v who c) h = plain32 c h.
Proof. reflexivity. Qed.

Lemma wf_genesis : wf genesis.
Proof.
  split; cbn.
  - lia.
  - intros h [x Hx]. by rewrite lookup_empty in Hx.
  - intros h v Hv. by rewrite lookup_empty in Hv.
  - intros h [x Hx]. by rewrite lookup_empty in Hx.
Qed.

Lemma wf_alloc ct c : wf c -> in_range ct -> wf (snd (alloc ct c)).
Proof.
  intros [Hn Hd Hr Hi] Hct. split; cbn.
  - lia.
  - intros h. rewrite lookup_insert. case_decide as Heq.
    + subst h. lia.
    + intros Hs. specialize (Hd h Hs). lia.
  - intros h v. rewrite lookup_insert. case_decide as Heq.
    + intros [= ->]. exact Hct.
    + apply Hr.
  - intros h Hs. rewrite lookup_insert. case_decide; [by eexists|].
    by apply Hi.
Qed.

Lemma wf_allow v who c : wf c -> wf (allow v who c).
Proof. intros [Hn Hd Hr Hi]. by split. Qed.

Lemma wf_handle_lt c h :
  wf c -> is_Some (ciphertexts c !! h) -> (0 < h < next_handle c)%N.
Proof. intros Hc. apply (wf_dom c Hc). Qed.

Lemma is_euint32_lt c h :
  wf c -> is_euint32 c h -> (h < next_handle c)%N.
Proof.
  intros Hc [-> | [v Hv]].
  - apply (wf_next c Hc).
  - apply (wf_dom c Hc h). by eexists.
Qed.

Lemma is_ebool_lt c h : wf c -> is_ebool c h -> (h < next_handle c)%N.
Proof.
  intros Hc [-> | [v Hv]].
  - apply (wf_next c Hc).
  - apply (wf_dom c Hc h). by eexists.
Qed.

Lemma wf_encryptInput contract user v proof c h c' :
  wf c -> encryptInput contract user v proof c = Some (h, c') ->
  wf c' /\ h = next_handle c /\
  ciphertexts c' !! h = Some (CtUint32 v) /\
  (forall k, (k < next_handle c)%N ->
             ciphertexts c' !! k = ciphertexts c !! k).
Proof.
  intros Hc. unfold encryptInput.
  destruct ((0 <=? v) && (v <? two32)) eqn:Hv; [|done].
  apply andb_prop in Hv as [H0 H1].
  apply Z.leb_le in H0. apply Z.ltb_lt in H1.
  cbn. intros [= <- <-]. cbn.
  assert (Hw : wf (snd (alloc (CtUint32 v) c))).
  { apply wf_alloc; [done|]. cbn. lia. }
  destruct Hw as [Hn Hd Hr Hi]. cbn in *.
  split; [|split; [done|split]].
  - split; cbn; try done.
    intros k. rewrite lookup_insert. case_decide as Heq.
    + subst k. intros _. rewrite lookup_insert_eq. by eexists.
    + intros Hs. rewrite lookup_insert_ne by done.
      destruct Hc as [_ _ _ Hi0]. by apply Hi0.
  - apply lookup_insert_eq.
  - intros k Hk. apply lookup_insert_ne. lia.
Qed.

(** A handle accepted by [fromExternal] names a 32-bit ciphertext that was
    registered for this contract and this sender. *)
Lemma fromExternal_Some this sender h proof c r :
  fromExternal this sender h proof c = Some r ->
  r = h /\ inputs c !! h = Some (mkInputBinding this sender proof) /\
  exists v, ciphertexts c !! h = Some (CtUint32 v).
Proof.
  unfold fromExternal.
  destruct (inputs c !! h) as [b|]; [|done].
  destruct (ciphertexts c !! h) as [[v|b']|]; try done.
  case_decide as Hb; [|done]. intros [= <-]. subst b. eauto.
Qed.

End FHEFacts.

(** ** The contract *)

Module LedgerFacts.
Import FHE Ledger FHEFacts.
#[local] Open Scope ledger_scope.

#[local] Arguments plain32 : simpl never.
#[local] Arguments Z.modulo : simpl never.
#[local] Arguments Z.mul : simpl never.
#[local] Arguments Z.add : simpl never.
#[local] Arguments Z.sub : simpl never.
#[local] Arguments Z.ltb : simpl never.

(** *** Rules of the weakest-precondition calculus *)

Section Rules.
Context {A B : Type}.

Lemma wp_bind (m : M A) (k : A -> M B) Q s :
  wp m (fun a s' => wp (k a) Q s') s -> wp (bind m k) Q s.
Proof. unfold wp, bind. by destruct (m s) as [[a s']|]. Qed.

Lemma wp_ret (a : A) (Q : A -> State -> Prop) s : Q a s -> wp (ret a) Q s.
Proof. done. Qed.

Lemma wp_gets (f : State -> A) (Q : A -> State -> Prop) s :
  Q (f s) s -> wp (gets f) Q s.
Proof. done. Qed.

Lemma wp_coproc (op : Coprocessor -> A * Coprocessor)
    (Q : A -> State -> Prop) s :
  Q (fst (op (fhe s))) (setFhe (snd (op (fhe s))) s) -> wp (coproc op) Q s.
Proof. unfold wp, coproc. by destruct (op (fhe s)). Qed.

Lemma wp_elim (m : M A) Q s :
  wp m Q s -> exists a s', m s = Some (a, s') /\ Q a s'.
Proof. unfold wp. destruct (m s) as [[a s']|]; [eauto|done]. Qed.

Lemma wp_mono (m : M A) (Q Q' : A -> State -> Prop) s :
  wp m Q s -> (forall a s', Q a s' -> Q' a s') -> wp m Q' s.
Proof. unfold wp. destruct (m s) as [[a s']|]; [eauto|done]. Qed.

End Rules.

Lemma wp_modify (f : State -> State) (Q : unit -> State -> Prop) s :
  Q tt (f s) -> wp (modify f) Q s.
Proof. done. Qed.

Lemma wp_fromExternal sender h proof (Q : N -> State -> Prop) s :
  FHE.fromExternal (this s) sender h proof (fhe s) = Some h ->
  Q h s -> wp (fromExternal sender h proof) Q s.
Proof. unfold wp, fromExternal. by intros ->. Qed.

(** Symbolic execution: one rule, then the state back in normal form. *)
Lemma plain32_lookup c h v :
  ciphertexts c !! h = Some (CtUint32 v) -> plain32 c h = v.
Proof. unfold plain32. by intros ->. Qed.

Ltac lookup_alloc :=
  repeat first
    [ rewrite lookup_insert_eq
    | rewrite lookup_insert_ne by lia ].

Lemma plain32_explicit n cts al ins h v :
  cts !! h = Some (CtUint32 v) -> plain32 (mkCoprocessor n cts al ins) h = v.
Proof. intros Hh. by apply plain32_lookup. Qed.

Ltac wp_norm :=
  unfold account, transactionsOf, categoryTotal, setFhe, setAccount,
    FHE.allow;
  cbn [fhe this accounts transactions categoryTotals events
       balance monthlyExpense monthlyBudget isOverBudget isBudgetWarning
       lastUpdateMonth amount timestamp category isIncome month
       next_handle ciphertexts acl inputs alloc asEuint32 add sub mul gt
       fst snd];
  rewrite ?lookup_insert_eq, ?insert_insert_eq;
  repeat match goal with
         | H : ?m !! ?k = _ |- context [?m !! ?k] => rewrite H
         end;
  repeat match goal with
         | |- context [plain32 (mkCoprocessor ?n ?cts ?al ?ins) ?h] =>
             erewrite (plain32_explicit n cts al ins h)
               by (lookup_alloc; first [eassumption | reflexivity])
         end;
  cbn [default from_option id balance monthlyExpense monthlyBudget
       isOverBudget isBudgetWarning lastUpdateMonth].

Ltac wp_step :=
  lazymatch goal with
  | |- wp (bind _ _) _ _ => apply wp_bind
  | |- wp (ret _) _ _ => apply wp_ret
  | |- wp (gets _) _ _ => apply wp_gets
  | |- wp (modify _) _ _ => apply wp_modify
  | |- wp (coproc _) _ _ => apply wp_coproc
  | |- wp (coproc_ _) _ _ => unfold coproc_
  | |- wp (storeBalance _ _) _ _ => unfold storeBalance
  | |- wp (storeMonthlyExpense _ _) _ _ => unfold storeMonthlyExpense
  | |- wp (storeMonthlyBudget _ _) _ _ => unfold storeMonthlyBudget
  | |- wp (storeIsOverBudget _ _) _ _ => unfold storeIsOverBudget
  | |- wp (storeIsBudgetWarning _ _) _ _ => unfold storeIsBudgetWarning
  | |- wp (storeLastUpdateMonth _ _) _ _ => unfold storeLastUpdateMonth
  | |- wp (storeCategoryTotal _ _ _) _ _ => unfold storeCategoryTotal
  | |- wp (pushTransaction _ _) _ _ => unfold pushTransaction
  | |- wp (emit _) _ _ => unfold emit
  | |- wp (allowThis _) _ _ => unfold allowThis
  | |- wp (Ledger.allow _ _) _ _ => unfold Ledger.allow
  end; wp_norm.

Lemma Nsucc_pos n : (0 < N.succ n)%N.
Proof. lia. Qed.

Lemma isZero_false h : (0 < h)%N -> _isZero h = false.
Proof. intros Hh. unfold _isZero. apply N.eqb_neq. lia. Qed.

Lemma isZero_true h : _isZero h = true -> h = 0%N.
Proof. unfold _isZero. apply N.eqb_eq. Qed.

Lemma zero_mod : 0 mod two32 = 0.
Proof. reflexivity. Qed.

Lemma plain32_zero c : wf c -> plain32 c 0 = 0.
Proof.
  intros Hc. unfold plain32.
  destruct (ciphertexts c !! 0%N) as [ct|] eqn:H0; [|done].
  assert (0 < 0 < next_handle c)%N by (apply (wf_dom c Hc); by eexists).
  lia.
Qed.

(** A stored handle: zero and reading as 0, or the name of a ciphertext. *)
Lemma is_euint32_cases c h :
  wf c -> is_euint32 c h ->
  (h = 0%N /\ plain32 c h = 0) \/
  ((0 < h < next_handle c)%N /\
   ciphertexts c !! h = Some (CtUint32 (plain32 c h))).
Proof.
  intros Hc [-> | [v Hv]].
  - left. split; [done|]. by apply plain32_zero.
  - right. split.
    + apply (wf_dom c Hc). by eexists.
    + by rewrite (plain32_lookup c h v Hv).
Qed.

Lemma wf_insert n cts al ins ct :
  wf (mkCoprocessor n cts al ins) -> in_range ct ->
  wf (mkCoprocessor (N.succ n) (<[n := ct]> cts) al ins).
Proof. intros Hc Hct. exact (wf_alloc ct _ Hc Hct). Qed.

Lemma wf_acl n cts al al' ins :
  wf (mkCoprocessor n cts al ins) -> wf (mkCoprocessor n cts al' ins).
Proof. intros [Hn Hd Hr Hi]. by split. Qed.

Lemma in_range_mod v : in_range (CtUint32 (v mod two32)).
Proof. cbn. apply Z.mod_pos_bound. reflexivity. Qed.

Lemma extends_refl c : extends c c.
Proof. by split. Qed.

Lemma extends_trans c1 c2 c3 : extends c1 c2 -> extends c2 c3 -> extends c1 c3.
Proof.
  intros [Hn1 Ho1] [Hn2 Ho2]. split.
  - lia.
  - intros h Hh. rewrite Ho2 by lia. by apply Ho1.
Qed.

Lemma extends_insert n0 cts0 al0 ins n cts al ct :
  extends (mkCoprocessor n0 cts0 al0 ins) (mkCoprocessor n cts al ins) ->
  extends (mkCoprocessor n0 cts0 al0 ins)
          (mkCoprocessor (N.succ n) (<[n := ct]> cts) al ins).
Proof.
  intros [Hn Ho]. cbn in *. split; cbn.
  - lia.
  - intros h Hh. rewrite lookup_insert_ne by lia. by apply Ho.
Qed.

Lemma extends_acl n0 cts0 al0 ins n cts al al' :
  extends (mkCoprocessor n0 cts0 al0 ins) (mkCoprocessor n cts al ins) ->
  extends (mkCoprocessor n0 cts0 al0 ins) (mkCoprocessor n cts al' ins).
Proof. intros [Hn Ho]. by split. Qed.

(** *** [_ensureNumericInitialized] *)

Lemma wp_ensure_explicit sender n cts al ins t acc tx cats ev b e g o w m
    (Q : unit -> State -> Prop) :
  let c := mkCoprocessor n cts al ins in
  default zeroAccount (acc !! sender) = mkUserAccount b e g o w m ->
  (b <> 0%N -> e <> 0%N -> g <> 0%N ->
   acc !! sender = Some (mkUserAccount b e g o w m)) ->
  wf c -> is_euint32 c b -> is_euint32 c e -> is_euint32 c g ->
  (forall n1 cts1 b1 e1 g1 acc1,
      let c1 := mkCoprocessor n1 cts1 al ins in
      extends c c1 -> wf c1 ->
      cts1 !! b1 = Some (CtUint32 (plain32 c b)) ->
      cts1 !! e1 = Some (CtUint32 (plain32 c e)) ->
      cts1 !! g1 = Some (CtUint32 (plain32 c g)) ->
      (b <> 0%N -> b1 = b) -> (e <> 0%N -> e1 = e) ->
      (g <> 0%N -> g1 = g) ->
      acc1 = <[sender := mkUserAccount b1 e1 g1 o w m]> acc ->
      Q tt (mkState c1 t acc1 tx cats ev)) ->
  wp (_ensureNumericInitialized sender) Q (mkState c t acc tx cats ev).
Proof.
  intros c Hdef Hid Hc Hb He Hg HQ. subst c.
  unfold _ensureNumericInitialized.
  destruct (is_euint32_cases _ b Hc Hb) as [[-> Hvb] | [Hbn Hbl]];
  destruct (is_euint32_cases _ e Hc He) as [[-> Hve] | [Hen Hel]];
  destruct (is_euint32_cases _ g Hc Hg) as [[-> Hvg] | [Hgn Hgl]];
  cbn [next_handle ciphertexts] in *;
  repeat first
    [ progress (rewrite ?Hdef, ?zero_mod;
                cbn [balance monthlyExpense monthlyBudget isOverBudget
                     isBudgetWarning lastUpdateMonth])
    | match goal with
      | |- context [_isZero 0%N] => change (_isZero 0%N) with true; cbv iota
      | |- context [_isZero ?h] => rewrite (isZero_false h) by lia
      end
    | wp_step ];
  rewrite ?insert_insert_eq.
  all: eapply HQ;
    [ | | | | | | | | first [ reflexivity
                            | symmetry; apply insert_id, Hid; lia ] ];
    [ by repeat first [ apply extends_insert | apply extends_refl ]
    | by repeat first [ apply wf_insert; [| cbn; unfold two32; lia]
                      | exact Hc ]
    | lookup_alloc; first [ eassumption | by rewrite ?Hvb, ?Hve, ?Hvg ]
    | lookup_alloc; first [ eassumption | by rewrite ?Hvb, ?Hve, ?Hvg ]
    | lookup_alloc; first [ eassumption | by rewrite ?Hvb, ?Hve, ?Hvg ]
    | intros Hnz; first [ reflexivity | done ] .. ].
Qed.

Lemma wp_ensure_noop sender s (Q : unit -> State -> Prop) :
  _isZero (balance (account s sender)) = false ->
  _isZero (monthlyExpense (account s sender)) = false ->
  _isZero (monthlyBudget (account s sender)) = false ->
  Q tt s -> wp (_ensureNumericInitialized sender) Q s.
Proof.
  intros Hb He Hg HQ. unfold _ensureNumericInitialized.
  apply wp_bind, wp_gets. rewrite Hb. apply wp_bind, wp_ret.
  apply wp_bind, wp_gets. rewrite He. apply wp_bind, wp_ret.
  apply wp_bind, wp_gets. rewrite Hg. by apply wp_ret.
Qed.

Lemma fromExternal_extends this sender h proof c c1 :
  wf c -> extends c c1 -> inputs c1 = inputs c ->
  FHE.fromExternal this sender h proof c1 =
  FHE.fromExternal this sender h proof c.
Proof.
  intros Hc [Hn Ho] Hi. unfold FHE.fromExternal. rewrite Hi.
  destruct (inputs c !! h) as [bd|] eqn:Hin; [|done].
  rewrite Ho; [done|].
  apply (wf_dom c Hc), (wf_inputs c Hc). by eexists.
Qed.

Lemma lookup_pos n cts al ins h ct :
  wf (mkCoprocessor n cts al ins) -> cts !! h = Some ct -> (0 < h < n)%N.
Proof. intros Hc Hh. apply (wf_dom _ Hc h). cbn. by eexists. Qed.

Lemma extends_build c0 n1 cts1 al ins n2 cts2 al2 :
  extends c0 (mkCoprocessor n1 cts1 al ins) -> (n1 <= n2)%N ->
  (forall h, (h < n1)%N -> cts2 !! h = cts1 !! h) ->
  extends c0 (mkCoprocessor n2 cts2 al2 ins).
Proof.
  intros [Hn Ho] Hle Hl. cbn in *. split; cbn.
  - lia.
  - intros h Hh. rewrite Hl by lia. by apply Ho.
Qed.

Ltac solve_in_range :=
  first [ apply in_range_mod | exact I | assumption
        | cbn; unfold two32; lia ].

Ltac solve_wf H :=
  eapply wf_acl;
  repeat (apply wf_insert; [| solve_in_range]);
  exact H.

Ltac wp_auto :=
  repeat first
    [ wp_step
    | lazymatch goal with
      | |- wp (_allowIfNotZero _ _) _ _ => unfold _allowIfNotZero
      | |- wp (_updateBudgetFlags _) _ _ => unfold _updateBudgetFlags
      | |- wp (_ensureNumericInitialized _) _ _ =>
          apply wp_ensure_noop; [wp_norm; apply isZero_false; lia ..|]
      | |- wp (if negb (_isZero ?h) then _ else _) _ _ =>
          rewrite (isZero_false h) by lia; cbn [negb]
      | |- wp (if _isZero 0%N then _ else _) _ _ =>
          change (_isZero 0%N) with true; cbv iota
      | |- wp (if _isZero ?h then _ else _) _ _ =>
          rewrite (isZero_false h) by lia
      | |- wp (if N.eqb ?a ?b then _ else _) _ _ =>
          match goal with H : N.eqb a b = _ |- _ => rewrite H end
      end ].

Lemma addTransaction_wp_explicit sender h ts cat inc key mth proof
    n cts al ins t acc tx cats ev b e g o w m :
  let c := mkCoprocessor n cts al ins in
  let s := mkState c t acc tx cats ev in
  default zeroAccount (acc !! sender) = mkUserAccount b e g o w m ->
  (b <> 0%N -> e <> 0%N -> g <> 0%N ->
   acc !! sender = Some (mkUserAccount b e g o w m)) ->
  wf c -> is_euint32 c b -> is_euint32 c e -> is_euint32 c g ->
  is_euint32 c (default 0%N (cats !! (sender, key))) ->
  FHE.fromExternal t sender h proof c = Some h ->
  wp (addTransaction sender h ts cat inc key mth proof)
     (fun _ s' => addTransaction_post sender h ts cat inc key mth s s') s.
Proof.
  intros c s Hdef Hid Hc Hb He Hg Hk Hin. subst s.
  unfold addTransaction.
  apply wp_bind, wp_ensure_explicit with (b := b) (e := e) (g := g)
    (o := o) (w := w) (m := m); try done.
  intros n1 cts1 b1 e1 g1 acc1 c1 Hext Hc1 Hb1 He1 Hg1 Hbk Hek Hgk ->.
  subst c1.
  fold c in Hext, Hb1, He1, Hg1.
  pose proof (lookup_pos _ _ _ _ _ _ Hc1 Hb1) as Hb1n.
  pose proof (lookup_pos _ _ _ _ _ _ Hc1 He1) as He1n.
  pose proof (lookup_pos _ _ _ _ _ _ Hc1 Hg1) as Hg1n.
  destruct (fromExternal_Some _ _ _ _ _ _ Hin) as (_ & Hbind & va & Hva).
  assert (Hhn : (0 < h < n)%N) by (by apply (lookup_pos _ _ _ _ _ _ Hc Hva)).
  assert (Hh1 : cts1 !! h = Some (CtUint32 va)).
  { destruct Hext as [_ Ho]. cbn in Ho. rewrite Ho; [done|lia]. }
  assert (Hn1 : (n <= n1)%N) by (by destruct Hext).
  apply wp_bind, wp_fromExternal.
  { cbn [this fhe]. by rewrite (fromExternal_extends _ _ _ _ c). }
  remember c as c0 eqn:Hc0 in Hb1, He1, Hg1 |- *.
  assert (Hk' : (cats !! (sender, key) = None \/
                 cats !! (sender, key) = Some 0%N) \/
                exists k, cats !! (sender, key) = Some k /\ (0 < k < n)%N /\
                  cts !! k = Some (CtUint32 (plain32 c k))).
  { destruct (cats !! (sender, key)) as [k|] eqn:Hck; [|by left; left].
    cbn in Hk.
    destruct (is_euint32_cases _ k Hc Hk) as [[-> _] | [Hkn Hkl]];
      [by left; right|right; eauto]. }
  assert (Hk1 : forall k, (0 < k < n)%N ->
            cts !! k = Some (CtUint32 (plain32 c k)) ->
            cts1 !! k = Some (CtUint32 (plain32 c0 k))).
  { intros k Hkn Hkl. subst c0. destruct Hext as [_ Ho]. cbn in Ho.
    rewrite Ho; [done|lia]. }
  assert (Hvh : plain32 c0 h = va) by (subst c0; by apply plain32_lookup).
  assert (Hv0 : plain32 c0 0 = 0) by (subst c0; by apply plain32_zero).
  destruct Hk' as [Hck | (k & Hck & Hkn & Hkl)];
    [destruct Hck as [Hck | Hck] | specialize (Hk1 k Hkn Hkl)];
  (destruct inc; [| destruct (N.eqb mth m) eqn:Hm ]);
  cbn [negb];
  wp_auto.
  all: change (0 mod two32) with 0; change (8 mod two32) with 8;
       change (10 mod two32) with 10.
  all: split;
    [ split; cbn [this fhe accounts transactions categoryTotals];
      [ reflexivity
      | subst c0; eapply extends_build;
        [ exact Hext | lia | intros; lookup_alloc; reflexivity ]
      | solve_wf Hc1
      | intros who Hne; by rewrite lookup_insert_ne
      | intros who Hne; by rewrite lookup_insert_ne
      | intros who key' Hne; try reflexivity;
        rewrite lookup_insert_ne; [done | congruence] ]
    | cbn [transactions]; unfold transactionsOf;
      cbn [transactions]; by rewrite lookup_insert_eq
    | cbv zeta; unfold account, overBudget, budgetWarning;
      cbn [fhe accounts]; rewrite Hdef, lookup_insert_eq;
      cbn [default from_option id balance monthlyExpense monthlyBudget
           isOverBudget isBudgetWarning lastUpdateMonth];
      rewrite ?Hvh, ?Hm;
      split;
      cbn [ciphertexts balance monthlyExpense monthlyBudget
           isOverBudget isBudgetWarning];
      lookup_alloc; first [ reflexivity | eassumption ]
    | unfold account; cbn [accounts]; rewrite ?Hdef, lookup_insert_eq;
      cbn [default from_option id lastUpdateMonth];
      try reflexivity; by apply N.eqb_eq in Hm
    | intros Hinc Hne; unfold account in Hne |- *;
      cbn [accounts] in Hne |- *;
      rewrite ?Hdef, lookup_insert_eq; rewrite ?Hdef in Hne;
      cbn [default from_option id lastUpdateMonth monthlyExpense]
        in Hne |- *;
      first [ done | by apply N.eqb_eq in Hm ]
    | unfold categoryTotal; cbn [fhe categoryTotals ciphertexts];
      rewrite lookup_insert_eq, Hck;
      cbn [default from_option id]; rewrite ?Hvh, ?Hv0;
      lookup_alloc; reflexivity
    | intros k' Hne; cbn [categoryTotals];
      rewrite lookup_insert_ne; [done | congruence]
    | cbn [events]; unfold transactionsOf; cbn [transactions];
      rewrite length_app, <- app_assoc; cbn [length app];
      do 3 f_equal; lia ].
Qed.

Lemma setMonthlyBudget_wp_explicit sender h proof
    n cts al ins t acc tx cats ev b e g o w m :
  let c := mkCoprocessor n cts al ins in
  let s := mkState c t acc tx cats ev in
  default zeroAccount (acc !! sender) = mkUserAccount b e g o w m ->
  (b <> 0%N -> e <> 0%N -> g <> 0%N ->
   acc !! sender = Some (mkUserAccount b e g o w m)) ->
  wf c -> is_euint32 c b -> is_euint32 c e -> is_euint32 c g ->
  FHE.fromExternal t sender h proof c = Some h ->
  wp (setMonthlyBudget sender h proof)
     (fun _ s' => setMonthlyBudget_post sender h s s') s.
Proof.
  intros c s Hdef Hid Hc Hb He Hg Hin. subst s.
  unfold setMonthlyBudget.
  apply wp_bind, wp_ensure_explicit with (b := b) (e := e) (g := g)
    (o := o) (w := w) (m := m); try done.
  intros n1 cts1 b1 e1 g1 acc1 c1 Hext Hc1 Hb1 He1 Hg1 Hbk Hek Hgk ->.
  subst c1.
  fold c in Hext, Hb1, He1, Hg1.
  pose proof (lookup_pos _ _ _ _ _ _ Hc1 Hb1) as Hb1n.
  pose proof (lookup_pos _ _ _ _ _ _ Hc1 He1) as He1n.
  pose proof (lookup_pos _ _ _ _ _ _ Hc1 Hg1) as Hg1n.
  destruct (fromExternal_Some _ _ _ _ _ _ Hin) as (_ & Hbind & va & Hva).
  assert (Hhn : (0 < h < n)%N) by (by apply (lookup_pos _ _ _ _ _ _ Hc Hva)).
  assert (Hh1 : cts1 !! h = Some (CtUint32 va)).
  { destruct Hext as [_ Ho]. cbn in Ho. rewrite Ho; [done|lia]. }
  assert (Hn1 : (n <= n1)%N) by (by destruct Hext).
  apply wp_bind, wp_fromExternal.
  { cbn [this fhe]. by rewrite (fromExternal_extends _ _ _ _ c). }
  remember c as c0 eqn:Hc0 in Hb1, He1, Hg1 |- *.
  assert (Hvh : plain32 c0 h = va) by (subst c0; by apply plain32_lookup).
  wp_auto.
  change (8 mod two32) with 8; change (10 mod two32) with 10.
  split;
    [ split; cbn [this fhe accounts transactions categoryTotals];
      [ reflexivity
      | subst c0; eapply extends_build;
        [ exact Hext | lia | intros; lookup_alloc; reflexivity ]
      | solve_wf Hc1
      | intros who Hne; by rewrite lookup_insert_ne
      | reflexivity
      | reflexivity ]
    | reflexivity
    | reflexivity
    | cbv zeta; unfold account, overBudget, budgetWarning;
      cbn [fhe accounts]; rewrite Hdef, lookup_insert_eq;
      cbn [default from_option id balance monthlyExpense monthlyBudget
           isOverBudget isBudgetWarning lastUpdateMonth];
      rewrite ?Hvh;
      split;
      cbn [ciphertexts balance monthlyExpense monthlyBudget
           isOverBudget isBudgetWarning];
      lookup_alloc; first [ reflexivity | eassumption ]
    | unfold account; cbn [accounts]; rewrite lookup_insert_eq; reflexivity
    | unfold account; cbn [accounts]; rewrite Hdef, lookup_insert_eq;
      exact Hbk
    | unfold account; cbn [accounts]; rewrite Hdef, lookup_insert_eq;
      exact Hek
    | unfold account; cbn [accounts]; rewrite Hdef, lookup_insert_eq;
      reflexivity
    | reflexivity ].
Qed.

(** The account record behind [account s who], and when the slot was
    really written. *)
Lemma account_cases (acc : gmap N UserAccount) who :
  exists b e g o w m,
    default zeroAccount (acc !! who) = mkUserAccount b e g o w m /\
    (b <> 0%N -> e <> 0%N -> g <> 0%N ->
     acc !! who = Some (mkUserAccount b e g o w m)).
Proof.
  destruct (acc !! who) as [[b e g o w m]|] eqn:Ha.
  - exists b, e, g, o, w, m. by split.
  - exists 0%N, 0%N, 0%N, 0%N, 0%N, 0%N. by split.
Qed.

(** *** The two calls, for any well-shaped state *)

Lemma addTransaction_wp sender h ts cat inc key mth proof s :
  state_shape s ->
  FHE.fromExternal (this s) sender h proof (fhe s) = Some h ->
  wp (addTransaction sender h ts cat inc key mth proof)
     (fun _ s' => addTransaction_post sender h ts cat inc key mth s s') s.
Proof.
  intros [Hwf Hacc Htx Hcat] Hin.
  specialize (Hacc sender) as [Hb He Hg _ _].
  specialize (Hcat sender key).
  destruct s as [[n cts al ins] t acc tx cats ev].
  destruct (account_cases acc sender) as (b & e & g & o & w & m & Hdef & Hid).
  unfold account, categoryTotal in *.
  cbn [fhe this accounts categoryTotals] in *. rewrite Hdef in *.
  by eapply addTransaction_wp_explicit.
Qed.

Lemma setMonthlyBudget_wp sender h proof s :
  state_shape s ->
  FHE.fromExternal (this s) sender h proof (fhe s) = Some h ->
  wp (setMonthlyBudget sender h proof)
     (fun _ s' => setMonthlyBudget_post sender h s s') s.
Proof.
  intros [Hwf Hacc Htx Hcat] Hin.
  specialize (Hacc sender) as [Hb He Hg _ _].
  destruct s as [[n cts al ins] t acc tx cats ev].
  destruct (account_cases acc sender) as (b & e & g & o & w & m & Hdef & Hid).
  unfold account in *.
  cbn [fhe this accounts] in *. rewrite Hdef in *.
  by eapply setMonthlyBudget_wp_explicit.
Qed.

(** *** From a successful call back to its postcondition *)

Lemma bind_Some {A B} (m : M A) (k : A -> M B) s r :
  bind m k s = Some r ->
  exists a s1, m s = Some (a, s1) /\ k a s1 = Some r.
Proof.
  unfold bind. destruct (m s) as [[a s1]|]; [|done]. eauto.
Qed.

Lemma ensure_frame sender s :
  state_shape s ->
  wp (_ensureNumericInitialized sender)
     (fun _ s1 => extends (fhe s) (fhe s1) /\ this s1 = this s /\
                  inputs (fhe s1) = inputs (fhe s)) s.
Proof.
  intros [Hwf Hacc _ _]. specialize (Hacc sender) as [Hb He Hg _ _].
  destruct s as [[n cts al ins] t acc tx cats ev].
  destruct (account_cases acc sender) as (b & e & g & o & w & m & Hdef & Hid).
  unfold account in *. cbn [fhe this accounts] in *. rewrite Hdef in *.
  eapply wp_ensure_explicit; try done.
Qed.

Lemma call_accepts_input {B} sender h proof (k : N -> M B) s r :
  state_shape s ->
  (_ensureNumericInitialized sender ;; a <- fromExternal sender h proof ;; k a)
    s = Some r ->
  FHE.fromExternal (this s) sender h proof (fhe s) = Some h.
Proof.
  intros Hs Hrun.
  apply bind_Some in Hrun as ([] & s1 & Hens & Hrun).
  apply bind_Some in Hrun as (a & s2 & Hext & _).
  pose proof (ensure_frame sender s Hs) as Hf. unfold wp in Hf.
  rewrite Hens in Hf. destruct Hf as (Hf & Ht & Hi).
  unfold fromExternal in Hext.
  destruct (FHE.fromExternal (this s1) sender h proof (fhe s1)) as [v|] eqn:Hv;
    [|done].
  rewrite Ht, (fromExternal_extends _ _ _ _ (fhe s)) in Hv;
    [|by destruct Hs|done|done].
  destruct (fromExternal_Some _ _ _ _ _ _ Hv) as [-> _]. done.
Qed.

Lemma addTransaction_spec sender h ts cat inc key mth proof s u s' :
  state_shape s ->
  addTransaction sender h ts cat inc key mth proof s = Some (u, s') ->
  addTransaction_post sender h ts cat inc key mth s s'.
Proof.
  intros Hs Hrun.
  pose proof (call_accepts_input _ _ _ _ _ _ Hs Hrun) as Hin.
  pose proof (addTransaction_wp sender h ts cat inc key mth proof s Hs Hin)
    as Hwp.
  unfold wp in Hwp. by rewrite Hrun in Hwp.
Qed.

Lemma setMonthlyBudget_spec sender h proof s u s' :
  state_shape s ->
  setMonthlyBudget sender h proof s = Some (u, s') ->
  setMonthlyBudget_post sender h s s'.
Proof.
  intros Hs Hrun.
  pose proof (call_accepts_input _ _ _ _ _ _ Hs Hrun) as Hin.
  pose proof (setMonthlyBudget_wp sender h proof s Hs Hin) as Hwp.
  unfold wp in Hwp. by rewrite Hrun in Hwp.
Qed.

(** A call reverts exactly when its input proof is rejected. *)
Lemma addTransaction_reverts_iff sender h ts cat inc key mth proof s :
  state_shape s ->
  addTransaction sender h ts cat inc key mth proof s = None <->
  FHE.fromExternal (this s) sender h proof (fhe s) <> Some h.
Proof.
  intros Hs. split.
  - intros Hnone Hin.
    pose proof (addTransaction_wp sender h ts cat inc key mth proof s Hs Hin)
      as Hwp.
    unfold wp in Hwp. by rewrite Hnone in Hwp.
  - intros Hin.
    destruct (addTransaction sender h ts cat inc key mth proof s)
      as [[u s']|] eqn:Hrun; [|done].
    by apply call_accepts_input in Hrun.
Qed.

Lemma setMonthlyBudget_reverts_iff sender h proof s :
  state_shape s ->
  setMonthlyBudget sender h proof s = None <->
  FHE.fromExternal (this s) sender h proof (fhe s) <> Some h.
Proof.
  intros Hs. split.
  - intros Hnone Hin.
    pose proof (setMonthlyBudget_wp sender h proof s Hs Hin) as Hwp.
    unfold wp in Hwp. by rewrite Hnone in Hwp.
  - intros Hin.
    destruct (setMonthlyBudget sender h proof s) as [[u s']|] eqn:Hrun;
      [|done].
    by apply call_accepts_input in Hrun.
Qed.

(** *** The storage keeps its shape *)

Lemma extends_lookup c c' h ct :
  wf c -> extends c c' ->
  ciphertexts c !! h = Some ct -> ciphertexts c' !! h = Some ct.
Proof.
  intros Hc [_ Ho] Hh. rewrite Ho; [done|].
  apply (wf_dom c Hc). by eexists.
Qed.

Lemma is_euint32_extends c c' h :
  wf c -> extends c c' -> is_euint32 c h -> is_euint32 c' h.
Proof.
  intros Hc He [-> | [v Hv]]; [by left|right].
  exists v. by apply (extends_lookup c).
Qed.

Lemma is_ebool_extends c c' h :
  wf c -> extends c c' -> is_ebool c h -> is_ebool c' h.
Proof.
  intros Hc He [-> | [v Hv]]; [by left|right].
  exists v. by apply (extends_lookup c).
Qed.

Lemma plain32_extends c c' h :
  wf c -> extends c c' -> is_euint32 c h -> plain32 c' h = plain32 c h.
Proof.
  intros Hc He Hh. destruct He as [_ Ho]. unfold plain32.
  rewrite Ho; [done|]. by apply is_euint32_lt.
Qed.

Lemma account_shape_extends c c' a :
  wf c -> extends c c' -> account_shape c a -> account_shape c' a.
Proof.
  intros Hc He [Hb Hx Hg Ho Hw].
  split; eauto using is_euint32_extends, is_ebool_extends.
Qed.

Lemma account_holds_shape c a vb ve vg fo fw :
  account_holds c a vb ve vg fo fw -> account_shape c a.
Proof. intros [Hb He Hg Ho Hw]. split; right; eauto. Qed.

Lemma account_frame sender s s' who :
  call_frame sender s s' -> who <> sender -> account s' who = account s who.
Proof.
  intros Hf Hne. unfold account. by rewrite (frame_accounts _ _ _ Hf).
Qed.

(** State changes that only extend the coprocessor keep the shape. *)
Lemma state_shape_setFhe s c' :
  state_shape s -> extends (fhe s) c' -> wf c' ->
  state_shape (setFhe c' s).
Proof.
  intros [Hwf Hacc Htx Hcat] He Hc'. split.
  - done.
  - intros who. apply (account_shape_extends (fhe s)); [done..|apply Hacc].
  - intros who t Ht. destruct (Htx who t Ht) as [v Hv].
    exists v. by apply (extends_lookup (fhe s)).
  - intros who key. apply (is_euint32_extends (fhe s)); [done..|apply Hcat].
Qed.

Lemma addTransaction_shape sender h ts cat inc key mth s s' :
  state_shape s ->
  (exists v, ciphertexts (fhe s) !! h = Some (CtUint32 v)) ->
  addTransaction_post sender h ts cat inc key mth s s' ->
  state_shape s'.
Proof.
  intros [Hwf Hacc Htx Hcat] [va Hva] [Hf Ht Ha Hm Hr Hk Hks He].
  pose proof (frame_extends _ _ _ Hf) as Hext.
  split.
  - apply (frame_wf _ _ _ Hf).
  - intros who. destruct (decide (who = sender)) as [->|Hne].
    + eapply account_holds_shape, Ha.
    + rewrite (account_frame sender s s' who Hf Hne).
      apply (account_shape_extends (fhe s)); [done..|apply Hacc].
  - intros who t. unfold transactionsOf.
    destruct (decide (who = sender)) as [->|Hne].
    + rewrite Ht. cbn. intros [Hold | Hnew%list_elem_of_singleton]%elem_of_app.
      * destruct (Htx sender t Hold) as [v Hv].
        exists v. by apply (extends_lookup (fhe s)).
      * subst t. cbn. exists va. by apply (extends_lookup (fhe s)).
    + rewrite (frame_transactions _ _ _ Hf who Hne). intros Hin.
      destruct (Htx who t Hin) as [v Hv].
      exists v. by apply (extends_lookup (fhe s)).
  - intros who k. destruct (decide (who = sender)) as [->|Hne].
    + destruct (decide (k = key)) as [->|Hk'].
      * right. eauto.
      * unfold categoryTotal. rewrite (Hks k Hk').
        apply (is_euint32_extends (fhe s)); [done..|apply Hcat].
    + unfold categoryTotal. rewrite (frame_categoryTotals _ _ _ Hf who k Hne).
      apply (is_euint32_extends (fhe s)); [done..|apply Hcat].
Qed.

Lemma setMonthlyBudget_shape sender h s s' :
  state_shape s -> setMonthlyBudget_post sender h s s' -> state_shape s'.
Proof.
  intros [Hwf Hacc Htx Hcat] [Hf Ht Hk Ha Hg Hb Hx Hm He].
  pose proof (frame_extends _ _ _ Hf) as Hext.
  split.
  - apply (frame_wf _ _ _ Hf).
  - intros who. destruct (decide (who = sender)) as [->|Hne].
    + eapply account_holds_shape, Ha.
    + rewrite (account_frame sender s s' who Hf Hne).
      apply (account_shape_extends (fhe s)); [done..|apply Hacc].
  - intros who t. unfold transactionsOf. rewrite Ht. intros Hin.
    destruct (Htx who t Hin) as [v Hv].
    exists v. by apply (extends_lookup (fhe s)).
  - intros who k. unfold categoryTotal. rewrite Hk.
    apply (is_euint32_extends (fhe s)); [done..|apply Hcat].
Qed.

Lemma deploy_shape addr : state_shape (deploy addr genesis).
Proof.
  split.
  - apply wf_genesis.
  - intros who. unfold account. cbn. rewrite lookup_empty. cbn.
    split; by left.
  - intros who t. unfold transactionsOf. cbn. rewrite lookup_empty. cbn.
    by intros ?%elem_of_nil.
  - intros who key. unfold categoryTotal. cbn. rewrite lookup_empty. by left.
Qed.

Lemma extends_alloc ct c : extends c (snd (alloc ct c)).
Proof.
  split; cbn; [lia|].
  intros h Hh. apply lookup_insert_ne. lia.
Qed.

Lemma extends_allow v who c : extends c (FHE.allow v who c).
Proof. by split. Qed.

Lemma step_shape s s' : state_shape s -> step s s' -> state_shape s'.
Proof.
  intros Hs Hstep. destruct Hstep as
    [contract user v proof h c Henc | ct Hct | v who
    | sender h ts cat inc key m proof s' Hrun | sender h proof s' Hrun].
  - pose proof (shape_fhe s Hs) as Hwf.
    destruct (wf_encryptInput _ _ _ _ _ _ _ Hwf Henc) as (Hc & Hh & Hl & Ho).
    apply state_shape_setFhe; [done| |done].
    unfold encryptInput in Henc.
    destruct ((0 <=? v) && (v <? two32)); [|done].
    cbn in Henc. injection Henc as <- <-. split; cbn; [lia|].
    intros k Hk. apply lookup_insert_ne. lia.
  - apply state_shape_setFhe; [done|apply extends_alloc|].
    apply wf_alloc; [apply (shape_fhe s Hs)|done].
  - apply state_shape_setFhe; [done|apply extends_allow|].
    apply wf_allow, (shape_fhe s Hs).
  - pose proof (call_accepts_input _ _ _ _ _ _ Hs Hrun) as Hin.
    destruct (fromExternal_Some _ _ _ _ _ _ Hin) as (_ & _ & Hv).
    eapply addTransaction_shape; [done..|].
    by eapply addTransaction_spec.
  - eapply setMonthlyBudget_shape; [done|].
    by eapply setMonthlyBudget_spec.
Qed.

Lemma reachable_shape s : reachable s -> state_shape s.
Proof.
  induction 1 as [addr | s s' _ IH Hstep].
  - apply deploy_shape.
  - by apply (step_shape s).
Qed.

(** *** Plaintext bookkeeping: the month of the last expense *)

Lemma lastExpenseMonth_snoc ts t d :
  lastExpenseMonth (ts ++ [t]) d =
  if isIncome t then lastExpenseMonth ts d else month t.
Proof.
  revert d. induction ts as [|t' ts IH]; intros d; cbn.
  - done.
  - apply IH.
Qed.

Lemma step_month_invariant s s' :
  state_shape s -> month_invariant s -> step s s' -> month_invariant s'.
Proof.
  intros Hs Hinv Hstep who. destruct Hstep as
    [contract user v proof h c Henc | ct Hct | v w
    | sender h ts cat inc key m proof s' Hrun | sender h proof s' Hrun];
    try apply Hinv.
  - destruct (addTransaction_spec _ _ _ _ _ _ _ _ _ _ _ Hs Hrun)
      as [Hf Ht _ Hm _ _ _ _].
    destruct (decide (who = sender)) as [->|Hne].
    + rewrite Hm. unfold transactionsOf at 1. rewrite Ht.
      cbn [default from_option id].
      rewrite lastExpenseMonth_snoc. cbn [isIncome month].
      destruct inc; [apply Hinv|done].
    + rewrite (account_frame sender s s' who Hf Hne).
      unfold transactionsOf. rewrite (frame_transactions _ _ _ Hf who Hne).
      apply Hinv.
  - destruct (setMonthlyBudget_spec _ _ _ _ _ _ Hs Hrun)
      as [Hf Ht _ _ _ _ _ Hm _].
    unfold transactionsOf. rewrite Ht.
    destruct (decide (who = sender)) as [->|Hne].
    + rewrite Hm. apply Hinv.
    + rewrite (account_frame sender s s' who Hf Hne). apply Hinv.
Qed.

Lemma reachable_month_invariant s : reachable s -> month_invariant s.
Proof.
  induction 1 as [addr | s s' Hr IH Hstep].
  - intros who. unfold account, transactionsOf. cbn.
    by rewrite !lookup_empty.
  - apply (step_month_invariant s); [by apply reachable_shape|done..].
Qed.

(** *** Building reachable states *)

Lemma reachable_encryptFor s user v proof :
  reachable s -> reachable (Demo.encryptFor s user v proof).
Proof.
  intros Hs. unfold Demo.encryptFor.
  destruct (encryptInput (this s) user v proof (fhe s)) as [[h c]|] eqn:He;
    [|done].
  by eapply reachable_step, step_encrypt.
Qed.

Lemma reachable_addTransaction s sender h ts cat inc key m proof :
  reachable s ->
  reachable (Demo.call (addTransaction sender h ts cat inc key m proof) s).
Proof.
  intros Hs. unfold Demo.call.
  destruct (addTransaction sender h ts cat inc key m proof s)
    as [[[] s']|] eqn:He; [|done].
  by eapply reachable_step, step_addTransaction.
Qed.

Lemma reachable_setMonthlyBudget s sender h proof :
  reachable s -> reachable (Demo.call (setMonthlyBudget sender h proof) s).
Proof.
  intros Hs. unfold Demo.call.
  destruct (setMonthlyBudget sender h proof s) as [[[] s']|] eqn:He; [|done].
  by eapply reachable_step, step_setMonthlyBudget.
Qed.

Lemma reachable_s1 : reachable Demo.s1.
Proof. apply reachable_encryptFor, reachable_deploy. Qed.

Lemma reachable_s3 : reachable Demo.s3.
Proof.
  apply reachable_encryptFor, reachable_addTransaction, reachable_s1.
Qed.

Lemma reachable_t1 : reachable Demo.t1.
Proof. apply reachable_encryptFor, reachable_deploy. Qed.

Lemma reachable_t3 : reachable Demo.t3.
Proof.
  apply reachable_encryptFor, reachable_addTransaction, reachable_t1.
Qed.

(** *** The effect of [addTransaction] *)



(** *** The budget flags *)

Lemma holds_plain c a vb ve vg fo fw :
  account_holds c a vb ve vg fo fw ->
  plain32 c (balance a) = vb /\ plain32 c (monthlyExpense a) = ve /\
  plain32 c (monthlyBudget a) = vg.
Proof.
  intros [Hb He Hg _ _]. by rewrite !(plain32_lookup _ _ _ Hb),
    !(plain32_lookup _ _ _ He), !(plain32_lookup _ _ _ Hg).
Qed.

Lemma holds_range c a vb ve vg fo fw :
  wf c -> account_holds c a vb ve vg fo fw ->
  0 <= ve < two32 /\ 0 <= vg < two32.
Proof.
  intros Hc [_ He Hg _ _]. split; by eapply (wf_range c Hc).
Qed.

(** Without overflow the wrapped comparison is the intended one. *)
Lemma budgetWarning_exact expense budget :
  0 <= expense -> 0 <= budget ->
  expense * 10 < two32 -> budget * 8 < two32 ->
  budgetWarning expense budget = (budget * 8 <? expense * 10).
Proof.
  intros He Hb Hoe Hob. unfold budgetWarning.
  rewrite !Z.mod_small; [done|lia..].
Qed.

(** C4 (amended).  After a call of [addTransaction] or [setMonthlyBudget]
    that goes through, the caller's [isOverBudget] encrypts
    monthlyExpense > monthlyBudget and [isBudgetWarning] encrypts
    (monthlyExpense * 10 mod 2^32) > (monthlyBudget * 8 mod 2^32), on the
    values stored after the call; whenever neither product overflows, the
    latter is the intended test 10 * expense > 8 * budget. *)
Theorem budget_flags_after_call s sender s' :
  reachable s ->
  (exists h ts cat inc key mth proof,
      addTransaction sender h ts cat inc key mth proof s = Some (tt, s')) \/
  (exists h proof, setMonthlyBudget sender h proof s = Some (tt, s')) ->
  let a' := account s' sender in
  let expense := plain32 (fhe s') (monthlyExpense a') in
  let budget := plain32 (fhe s') (monthlyBudget a') in
  ciphertexts (fhe s') !! isOverBudget a' = Some (CtBool (budget <? expense))
  /\ ciphertexts (fhe s') !! isBudgetWarning a' =
       Some (CtBool ((budget * 8) mod two32 <? (expense * 10) mod two32))
  /\ (expense * 10 < two32 -> budget * 8 < two32 ->
      ciphertexts (fhe s') !! isBudgetWarning a' =
        Some (CtBool (budget * 8 <? expense * 10))).
Proof.
  intros Hr Hcall a' expense budget.
  pose proof (reachable_shape s Hr) as Hs.
  assert (Hholds : exists vb ve vg,
    wf (fhe s') /\
    account_holds (fhe s') a' vb ve vg (overBudget ve vg)
      (budgetWarning ve vg)).
  { destruct Hcall as [(h & ts & cat & inc & key & mth & proof & Hrun)
                      | (h & proof & Hrun)].
    - destruct (addTransaction_spec _ _ _ _ _ _ _ _ _ _ _ Hs Hrun)
        as [Hf _ Ha _ _ _ _ _].
      cbv zeta in Ha. do 3 eexists. split; [apply (frame_wf _ _ _ Hf)|].
      exact Ha.
    - destruct (setMonthlyBudget_spec _ _ _ _ _ _ Hs Hrun)
        as [Hf _ _ Ha _ _ _ _ _].
      cbv zeta in Ha. do 3 eexists. split; [apply (frame_wf _ _ _ Hf)|].
      exact Ha. }
  destruct Hholds as (vb & ve & vg & Hwf & Ha).
  destruct (holds_plain _ _ _ _ _ _ _ Ha) as (_ & He & Hg).
  destruct (holds_range _ _ _ _ _ _ _ Hwf Ha) as [Hre Hrg].
  subst expense budget. rewrite He, Hg.
  destruct Ha as [_ _ _ Ho Hw].
  split; [exact Ho|split; [exact Hw|]].
  intros Hoe Hog. rewrite Hw. do 2 f_equal.
  apply budgetWarning_exact; lia.
Qed.

(** Alice sets a budget of 1000 against an expense of 500. *)
Lemma budget_flags_after_call_witness :
  reachable Demo.s3 /\
  setMonthlyBudget Demo.alice 14%N [3%N] Demo.s3 = Some (tt, Demo.s4) /\
  plainBool (fhe Demo.s4) (isOverBudget (account Demo.s4 Demo.alice)) = false
  /\ plainBool (fhe Demo.s4) (isBudgetWarning (account Demo.s4 Demo.alice))
     = false.
Proof.
  assert (Hrun : setMonthlyBudget Demo.alice 14%N [3%N] Demo.s3
                 = Some (tt, Demo.s4)) by (vm_compute; reflexivity).
  split; [exact reachable_s3|split; [exact Hrun|]].
  destruct (budget_flags_after_call Demo.s3 Demo.alice Demo.s4 reachable_s3
              (or_intror (ex_intro _ 14%N (ex_intro _ [3%N] Hrun))))
    as (Ho & Hw & _).
  unfold plainBool. rewrite Ho, Hw. split; vm_compute; reflexivity.
Defined.

(** Bob's expense of 429496730 against a budget of 0: ten times the
    expense wraps to 4, and the wrapped comparison 0 < 4 still agrees with
    the intended 0 < 4294967300.  So agreement does not need the absence of
    overflow. *)
Lemma budget_warning_agrees_despite_overflow :
  addTransaction Demo.bob 1%N 1700000000%N 0%N false 0%N 11%N [9%N] Demo.t1
    = Some (tt, Demo.t2) /\
  plain32 (fhe Demo.t2) (monthlyExpense (account Demo.t2 Demo.bob))
    = 429496730 /\
  plain32 (fhe Demo.t2) (monthlyBudget (account Demo.t2 Demo.bob)) = 0 /\
  two32 <= 429496730 * 10 /\
  plainBool (fhe Demo.t2) (isBudgetWarning (account Demo.t2 Demo.bob))
    = (0 * 8 <? 429496730 * 10).
Proof. vm_compute. repeat split; congruence. Qed.

(** With a budget of 1 the same expense gives 8 < 4, so the warning is off
    although the expense is far above 80% of the budget. *)
Lemma budget_warning_wrong_on_overflow :
  setMonthlyBudget Demo.bob 14%N [10%N] Demo.t3 = Some (tt, Demo.t4) /\
  plain32 (fhe Demo.t4) (monthlyExpense (account Demo.t4 Demo.bob))
    = 429496730 /\
  plain32 (fhe Demo.t4) (monthlyBudget (account Demo.t4 Demo.bob)) = 1 /\
  plainBool (fhe Demo.t4) (isBudgetWarning (account Demo.t4 Demo.bob))
    = false /\
  (1 * 8 <? 429496730 * 10) = true.
Proof. vm_compute. repeat split; congruence. Qed.

(** *** The storage invariant *)

(** C5.  In every reachable state the balance, monthly expense, monthly
    budget, each category total and each transaction amount is a handle of
    a 32-bit ciphertext (or still zero), the two flags are handles of
    encrypted booleans (or still zero), and the coprocessor is well
    formed; timestamp, category, isIncome, month and lastUpdateMonth are
    kept as plain numbers in the storage records, the stored month being
    the month of the caller's last expense. *)
Theorem storage_shape_invariant s :
  reachable s -> state_shape s /\ month_invariant s.
Proof.
  intros Hr. split.
  - by apply reachable_shape.
  - by apply reachable_month_invariant.
Qed.

Lemma storage_shape_invariant_witness :
  reachable Demo.s3 /\ state_shape Demo.s3 /\ month_invariant Demo.s3.
Proof.
  split; [exact reachable_s3|].
  exact (storage_shape_invariant Demo.s3 reachable_s3).
Defined.

(** *** What [setMonthlyBudget] leaves alone *)

Lemma plainBool_extends c c' h :
  wf c -> extends c c' -> is_ebool c h -> plainBool c' h = plainBool c h.
Proof.
  intros Hc He Hh. destruct He as [_ Ho]. unfold plainBool.
  rewrite Ho; [done|]. by apply is_ebool_lt.
Qed.

Lemma clearAccount_extends c c' a :
  wf c -> extends c c' -> account_shape c a ->
  clearAccount c' a = clearAccount c a.
Proof.
  intros Hc He [Hb Hx Hg Ho Hw]. unfold clearAccount.
  by rewrite !(plain32_extends c c'), !(plainBool_extends c c').
Qed.

(** C7.  A call of [setMonthlyBudget] that goes through keeps the clear
    values of the caller's balance and monthly expense (their handles too,
    unless they were uninitialized), the stored month, every transaction
    list, every category total, and every other user's account. *)
Theorem setMonthlyBudget_frame s sender h proof s' :
  reachable s ->
  setMonthlyBudget sender h proof s = Some (tt, s') ->
  let a := account s sender in
  let a' := account s' sender in
  plain32 (fhe s') (balance a') = plain32 (fhe s) (balance a)
  /\ plain32 (fhe s') (monthlyExpense a') = plain32 (fhe s) (monthlyExpense a)
  /\ (balance a <> 0%N -> balance a' = balance a)
  /\ (monthlyExpense a <> 0%N -> monthlyExpense a' = monthlyExpense a)
  /\ lastUpdateMonth a' = lastUpdateMonth a
  /\ transactions s' = transactions s
  /\ (forall who t, t ∈ transactionsOf s who ->
        plain32 (fhe s') (amount t) = plain32 (fhe s) (amount t))
  /\ categoryTotals s' = categoryTotals s
  /\ (forall who key, plain32 (fhe s') (categoryTotal s' who key) =
                      plain32 (fhe s) (categoryTotal s who key))
  /\ (forall who, who <> sender ->
        account s' who = account s who /\
        clearAccount (fhe s') (account s' who) =
        clearAccount (fhe s) (account s who)).
Proof.
  intros Hr Hrun a a'.
  pose proof (reachable_shape s Hr) as Hs.
  destruct (setMonthlyBudget_spec _ _ _ _ _ _ Hs Hrun)
    as [Hf Ht Hk Ha Hg Hb Hx Hm He].
  cbv zeta in Ha. destruct (holds_plain _ _ _ _ _ _ _ Ha) as (Hvb & Hve & _).
  pose proof (frame_extends _ _ _ Hf) as Hext.
  destruct Hs as [Hwf Hacc Htx Hcat].
  repeat split; try done.
  - intros who t Hin. apply plain32_extends; [done..|].
    destruct (Htx who t Hin) as [v Hv]. right. eauto.
  - intros who key. unfold categoryTotal. rewrite Hk.
    apply plain32_extends; [done..|]. apply Hcat.
  - by apply (account_frame sender).
  - rewrite (account_frame sender s s' who Hf) by done.
    apply clearAccount_extends; [done..|]. apply Hacc.
Qed.

(** Alice's balance of -500 (mod 2^32) survives her setting a budget. *)
Lemma setMonthlyBudget_frame_witness :
  reachable Demo.s3 /\
  setMonthlyBudget Demo.alice 14%N [3%N] Demo.s3 = Some (tt, Demo.s4) /\
  plain32 (fhe Demo.s4) (balance (account Demo.s4 Demo.alice)) = 2 ^ 32 - 500
  /\ transactions Demo.s4 = transactions Demo.s3.
Proof.
  assert (Hrun : setMonthlyBudget Demo.alice 14%N [3%N] Demo.s3
                 = Some (tt, Demo.s4)) by (vm_compute; reflexivity).
  split; [exact reachable_s3|split; [exact Hrun|]].
  destruct (setMonthlyBudget_frame Demo.s3 Demo.alice 14%N [3%N] Demo.s4
              reachable_s3 Hrun) as (Hb & _ & _ & _ & _ & Ht & _).
  split; [|exact Ht].
  rewrite Hb. vm_compute. reflexivity.
Defined.

(** ** More of the contract: reads, history and access *)


Lemma reachable_s4 : reachable Demo.s4.
Proof. apply reachable_setMonthlyBudget, reachable_s3. Qed.



Lemma run_s2 :
  addTransaction Demo.alice 1%N 1700000000%N 3%N false 3%N 11%N [1%N; 2%N]
    Demo.s1 = Some (tt, Demo.s2).
Proof. vm_compute. reflexivity. Qed.

Lemma run_s4 :
  setMonthlyBudget Demo.alice 14%N [3%N] Demo.s3 = Some (tt, Demo.s4).
Proof. vm_compute. reflexivity. Qed.

(** *** [queryTransactionsByMonth] *)

Lemma countLoop_monthIndices m ts i count :
  countLoop m ts count
  = (count + N.of_nat (length (monthIndices m i ts)))%N.
Proof.
  revert i count. induction ts as [|t ts IH]; intros i count; cbn.
  - lia.
  - destruct (N.eqb (month t) m); cbn [length].
    + rewrite (IH (N.succ i)). lia.
    + apply IH.
Qed.

(** The collecting pass fills the slots from [index] on with the matching
    indices and leaves the others as they were. *)
Lemma collectLoop_monthIndices m ts i done_ rest :
  length rest = length (monthIndices m i ts) ->
  collectLoop m ts i (N.of_nat (length done_)) (done_ ++ rest)
  = Some (done_ ++ monthIndices m i ts).
Proof.
  revert i done_ rest. induction ts as [|t ts IH]; intros i done_ rest; cbn.
  - intros ->%nil_length_inv. done.
  - destruct (N.eqb (month t) m); cbn [length].
    + destruct rest as [|x rest]; [done|]. intros [= Hlen].
      rewrite length_app. cbn [length].
      rewrite (proj2 (N.ltb_lt _ _)) by lia.
      rewrite Nat2N.id.
      replace (<[length done_ := i]> (done_ ++ x :: rest))
        with ((done_ ++ [i]) ++ rest).
      2:{ rewrite insert_app_r_alt by lia.
          rewrite Nat.sub_diag. cbn. by rewrite <- app_assoc. }
      replace (N.succ (N.of_nat (length done_)))
        with (N.of_nat (length (done_ ++ [i])))
        by (rewrite length_app; cbn; lia).
      rewrite (IH (N.succ i) (done_ ++ [i]) rest Hlen).
      by rewrite <- app_assoc.
    + apply IH.
Qed.

Lemma queryTransactionsByMonth_monthIndices sender m s :
  queryTransactionsByMonth sender m s
  = Some (monthIndices m 0%N (transactionsOf s sender)).
Proof.
  unfold queryTransactionsByMonth. cbv zeta.
  rewrite (countLoop_monthIndices m _ 0%N 0%N), N.add_0_l, Nat2N.id.
  apply (collectLoop_monthIndices m _ 0%N [] _), length_replicate.
Qed.

Lemma elem_of_monthIndices m ts i j :
  j ∈ monthIndices m i ts <->
  (i <= j)%N /\ exists t, ts !! N.to_nat (j - i) = Some t /\ month t = m.
Proof.
  revert i. induction ts as [|t ts IH]; intros i; cbn.
  - split; [by intros ?%elem_of_nil|]. by intros (_ & t & [=] & _).
  - assert (Hhere : forall t', (t :: ts) !! N.to_nat (j - N.succ i + 1)
                               = Some t' <-> ts !! N.to_nat (j - N.succ i)
                               = Some t').
    { intros t'. by replace (N.to_nat (j - N.succ i + 1))
        with (S (N.to_nat (j - N.succ i))) by lia. }
    destruct (N.eqb (month t) m) eqn:Hm.
    + rewrite elem_of_cons, IH. apply N.eqb_eq in Hm. split.
      * intros [-> | (Hle & t' & Ht' & Hm')].
        -- split; [lia|]. exists t. by rewrite N.sub_diag.
        -- split; [lia|]. exists t'. split; [|done].
           replace (j - i)%N with (j - N.succ i + 1)%N by lia.
           by apply Hhere.
      * intros (Hle & t' & Ht' & Hm').
        destruct (decide (j = i)) as [->|Hne]; [by left|right].
        split; [lia|]. exists t'. split; [|done].
        apply Hhere. by replace (j - N.succ i + 1)%N with (j - i)%N by lia.
    + rewrite IH. apply N.eqb_neq in Hm. split.
      * intros (Hle & t' & Ht' & Hm'). split; [lia|]. exists t'.
        split; [|done].
        replace (j - i)%N with (j - N.succ i + 1)%N by lia.
        by apply Hhere.
      * intros (Hle & t' & Ht' & Hm').
        destruct (decide (j = i)) as [->|Hne].
        { rewrite N.sub_diag in Ht'. injection Ht' as <-. done. }
        split; [lia|]. exists t'. split; [|done].
        apply Hhere. by replace (j - N.succ i + 1)%N with (j - i)%N by lia.
Qed.

Lemma monthIndices_ge m ts i :
  Forall (fun j => (i <= j)%N) (monthIndices m i ts).
Proof.
  revert i. induction ts as [|t ts IH]; intros i; cbn.
  - constructor.
  - assert (Hf : Forall (fun j => (i <= j)%N)
                        (monthIndices m (N.succ i) ts)).
    { eapply Forall_impl; [apply IH|]. cbn. lia. }
    destruct (N.eqb (month t) m); [constructor; [lia|done]|done].
Qed.

Lemma monthIndices_increasing m ts i (j k : nat) a b :
  (j < k)%nat ->
  monthIndices m i ts !! j = Some a -> monthIndices m i ts !! k = Some b ->
  (a < b)%N.
Proof.
  revert i j k. induction ts as [|t ts IH]; intros i j k Hjk; cbn.
  - done.
  - destruct (N.eqb (month t) m); [|by apply IH].
    destruct k as [|k]; [lia|]. destruct j as [|j]; cbn.
    + intros [= <-] Hb.
      pose proof (monthIndices_ge m ts (N.succ i)) as Hge.
      rewrite Forall_forall in Hge.
      specialize (Hge b (list_elem_of_lookup_2 _ _ _ Hb)). cbn in Hge. lia.
    + apply IH. lia.
Qed.

Lemma monthIndices_app m ts ts' i :
  monthIndices m i (ts ++ ts')
  = monthIndices m i ts ++ monthIndices m (i + N.of_nat (length ts))%N ts'.
Proof.
  revert i. induction ts as [|t ts IH]; intros i; cbn.
  - by rewrite N.add_0_r.
  - rewrite IH.
    replace (N.succ i + N.of_nat (length ts))%N
      with (i + N.pos (Pos.of_succ_nat (length ts)))%N by lia.
    by destruct (N.eqb (month t) m).
Qed.

(** The query never reverts; it returns, in increasing order, exactly the
    indices whose transaction has the month asked for, and each of them is
    an index that [getTransaction] serves. *)
Theorem queryTransactionsByMonth_complete sender m s :
  exists indices,
    queryTransactionsByMonth sender m s = Some indices /\
    (forall (j k : nat) a b,
        (j < k)%nat -> indices !! j = Some a -> indices !! k = Some b ->
        (a < b)%N) /\
    (forall i, i ∈ indices <->
               exists t, getTransaction sender i s = Some t /\ month t = m).
Proof.
  exists (monthIndices m 0%N (transactionsOf s sender)).
  split; [apply queryTransactionsByMonth_monthIndices|].
  split; [apply monthIndices_increasing|].
  intros i. rewrite elem_of_monthIndices, N.sub_0_r. unfold getTransaction.
  split.
  - intros (_ & t & Ht & Hm). exists t. split; [|done].
    pose proof (lookup_lt_Some _ _ _ Ht) as Hlt.
    by rewrite (proj2 (N.ltb_lt _ _)) by lia.
  - intros (t & Ht & Hm). split; [lia|]. exists t. split; [|done].
    by destruct (i <? N.of_nat (length (transactionsOf s sender)))%N.
Qed.


(** Alice's four bookings by month, and Bob's none. *)
Example queryTransactionsByMonth_demo :
  queryTransactionsByMonth Demo.alice 11%N Demo.s7 = Some [0; 2]%N /\
  queryTransactionsByMonth Demo.alice 12%N Demo.s7 = Some [1; 3]%N /\
  queryTransactionsByMonth Demo.alice 1%N Demo.s7 = Some [] /\
  queryTransactionsByMonth Demo.bob 11%N Demo.s7 = Some [].
Proof. vm_compute. done. Qed.
(** *** [getTransaction] and [getTransactionCount] *)

(** A booked transaction is served back at the index the event announces:
    the count grows by one, the new entry sits at the old count with the
    plaintext fields as passed and the amount as the handle passed,
    earlier entries stay, and any index from the count on reverts. *)
Theorem getTransaction_after_addTransaction
    s sender h ts cat inc key mth proof s' :
  reachable s ->
  addTransaction sender h ts cat inc key mth proof s = Some (tt, s') ->
  let n := getTransactionCount sender s in
  getTransactionCount sender s' = N.succ n /\
  getTransaction sender n s' = Some (mkTransaction h ts cat inc mth) /\
  (forall i, (i < n)%N ->
             getTransaction sender i s' = getTransaction sender i s) /\
  (forall i, (N.succ n <= i)%N -> getTransaction sender i s' = None) /\
  TransactionAdded sender n ∈ events s' /\
  (forall who i, who <> sender ->
                 getTransaction who i s' = getTransaction who i s).
Proof.
  intros Hr Hrun n.
  destruct (addTransaction_spec _ _ _ _ _ _ _ _ _ _ _
              (reachable_shape s Hr) Hrun) as [Hf Ht _ _ _ _ _ He].
  assert (Ht' : transactionsOf s' sender
                = transactionsOf s sender ++ [mkTransaction h ts cat inc mth])
    by (unfold transactionsOf at 1; by rewrite Ht).
  subst n. unfold getTransactionCount, getTransaction. rewrite Ht'.
  set (old := transactionsOf s sender).
  rewrite length_app. cbn [length].
  repeat split.
  - lia.
  - rewrite (proj2 (N.ltb_lt _ _)) by lia.
    rewrite Nat2N.id. by apply list_lookup_middle.
  - intros i Hi. rewrite !(proj2 (N.ltb_lt _ _)) by lia.
    apply lookup_app_l. lia.
  - intros i Hi. by rewrite (proj2 (N.ltb_ge _ _)) by lia.
  - rewrite He. apply elem_of_app. right. by left.
  - intros who i Hne. unfold transactionsOf.
    by rewrite (frame_transactions _ _ _ Hf who Hne).
Qed.

(** Alice's first booking is served back at index 0. *)
Lemma getTransaction_after_addTransaction_witness :
  getTransactionCount Demo.alice Demo.s2 = 1%N /\
  getTransaction Demo.alice 0%N Demo.s2
    = Some (mkTransaction 1%N 1700000000%N 3%N false 11%N) /\
  getTransaction Demo.alice 1%N Demo.s2 = None.
Proof.
  destruct (getTransaction_after_addTransaction Demo.s1 Demo.alice 1%N
              1700000000%N 3%N false 3%N 11%N [1%N; 2%N] Demo.s2
              reachable_s1 run_s2) as (Hn & Hget & _ & Hout & _).
  split; [exact Hn|]. split; [exact Hget|].
  apply Hout. vm_compute. discriminate.
Defined.


(** [getTransaction] reverts exactly from the count on. *)
Lemma getTransaction_bounds sender i s :
  getTransaction sender i s = None <->
  (getTransactionCount sender s <= i)%N.
Proof.
  unfold getTransaction, getTransactionCount.
  destruct (N.ltb_spec i (N.of_nat (length (transactionsOf s sender))))
    as [Hlt | Hge].
  - split; [|lia]. intros Hnone%lookup_ge_None. lia.
  - done.
Qed.

(** *** One caller's calls leave the others alone *)


(** *** The stored totals against the transaction history *)





















(** *** The event log *)






(** *** Initialization *)

Lemma holds_initialized c a vb ve vg fo fw :
  wf c -> account_holds c a vb ve vg fo fw -> initialized a.
Proof.
  intros Hc [Hb He Hg Ho Hw].
  repeat split; intros Hz;
    match goal with
    | H : ciphertexts c !! ?h = Some _ |- _ =>
        match type of Hz with
        | ?h' = _ => constr_eq h h';
            assert (0 < h < next_handle c)%N
              by (apply (wf_dom c Hc); by eexists); lia
        end
    end.
Qed.

(** In every reachable state an account is either untouched, with all
    fields zero and no transactions, or has all five encrypted fields
    set: the getters never hand out a mix of zero and non-zero handles. *)
Theorem accounts_untouched_or_initialized s who :
  reachable s ->
  untouched s who \/ initialized (account s who).
Proof.
  induction 1 as [addr | s s' Hr IH Hstep].
  - left. unfold untouched, account, transactionsOf. cbn.
    by rewrite !lookup_empty.
  - pose proof (reachable_shape s Hr) as Hs.
    destruct Hstep as
      [contract user v proof h c Henc | ct Hct | v w
      | sender h ts cat inc key m proof s' Hrun | sender h proof s' Hrun];
      try exact IH.
    + destruct (addTransaction_spec _ _ _ _ _ _ _ _ _ _ _ Hs Hrun)
        as [Hf _ Ha _ _ _ _ _].
      destruct (decide (who = sender)) as [->|Hne].
      * right. cbv zeta in Ha.
        eapply holds_initialized; [apply (frame_wf _ _ _ Hf)|exact Ha].
      * unfold untouched, transactionsOf.
        rewrite (account_frame sender s s' who Hf Hne),
          (frame_transactions _ _ _ Hf who Hne). exact IH.
    + destruct (setMonthlyBudget_spec _ _ _ _ _ _ Hs Hrun)
        as [Hf Ht _ Ha _ _ _ _ _].
      destruct (decide (who = sender)) as [->|Hne].
      * right. cbv zeta in Ha.
        eapply holds_initialized; [apply (frame_wf _ _ _ Hf)|exact Ha].
      * unfold untouched, transactionsOf.
        rewrite (account_frame sender s s' who Hf Hne), Ht. exact IH.
Qed.

Lemma accounts_untouched_or_initialized_witness :
  (untouched Demo.s4 Demo.alice \/ initialized (account Demo.s4 Demo.alice))
  /\ balance (account Demo.s4 Demo.alice) <> 0%N
  /\ account Demo.s4 Demo.bob = zeroAccount.
Proof.
  split; [exact (accounts_untouched_or_initialized Demo.s4 Demo.alice
                   reachable_s4)|].
  split; vm_compute; [discriminate|reflexivity].
Defined.

(** *** Who may decrypt what *)


Lemma setMonthlyBudget_access_explicit sender h proof
    n cts al ins t acc tx cats ev b e g o w m :
  let c := mkCoprocessor n cts al ins in
  let s := mkState c t acc tx cats ev in
  default zeroAccount (acc !! sender) = mkUserAccount b e g o w m ->
  (b <> 0%N -> e <> 0%N -> g <> 0%N ->
   acc !! sender = Some (mkUserAccount b e g o w m)) ->
  wf c -> is_euint32 c b -> is_euint32 c e -> is_euint32 c g ->
  FHE.fromExternal t sender h proof c = Some h ->
  wp (setMonthlyBudget sender h proof)
     (fun _ s' => setMonthlyBudget_access sender s s') s.
Proof.
  intros c s Hdef Hid Hc Hb He Hg Hin. subst s.
  unfold setMonthlyBudget.
  apply wp_bind, wp_ensure_explicit with (b := b) (e := e) (g := g)
    (o := o) (w := w) (m := m); try done.
  intros n1 cts1 b1 e1 g1 acc1 c1 Hext Hc1 Hb1 He1 Hg1 Hbk Hek Hgk ->.
  subst c1.
  fold c in Hext, Hb1, He1, Hg1.
  pose proof (lookup_pos _ _ _ _ _ _ Hc1 Hb1) as Hb1n.
  pose proof (lookup_pos _ _ _ _ _ _ Hc1 He1) as He1n.
  pose proof (lookup_pos _ _ _ _ _ _ Hc1 Hg1) as Hg1n.
  destruct (fromExternal_Some _ _ _ _ _ _ Hin) as (_ & Hbind & va & Hva).
  assert (Hhn : (0 < h < n)%N) by (by apply (lookup_pos _ _ _ _ _ _ Hc Hva)).
  assert (Hh1 : cts1 !! h = Some (CtUint32 va)).
  { destruct Hext as [_ Ho]. cbn in Ho. rewrite Ho; [done|lia]. }
  assert (Hn1 : (n <= n1)%N) by (by destruct Hext).
  apply wp_bind, wp_fromExternal.
  { cbn [this fhe]. by rewrite (fromExternal_extends _ _ _ _ c). }
  remember c as c0 eqn:Hc0 in Hb1, He1, Hg1 |- *.
  wp_auto.
  subst c0. subst c. unfold setMonthlyBudget_access. cbv zeta.
  unfold granted, account.
  cbn [fhe this accounts acl]. rewrite ?lookup_insert_eq.
  cbn [default from_option id monthlyBudget isOverBudget isBudgetWarning
       foldl].
  reflexivity.
Qed.

Lemma elem_of_granted s sender vs al p :
  p ∈ granted s sender vs al <->
  p ∈ al \/ exists v, v ∈ vs /\ (p = (v, this s) \/ p = (v, sender)).
Proof.
  unfold granted. revert al. induction vs as [|v vs IH]; intros al; cbn.
  - split; [by left|]. intros [Hal | (v & Hv & _)]; [done|].
    by apply elem_of_nil in Hv.
  - rewrite IH, !elem_of_union, !elem_of_singleton. split.
    + intros [[Hs | [Ht | Hal]] | (v' & Hv' & Hp)].
      * right. exists v. split; [by left|by right].
      * right. exists v. split; [by left|by left].
      * by left.
      * right. exists v'. split; [by right|done].
    + intros [Hal | (v' & [-> | Hv']%elem_of_cons & Hp)].
      * left. by right; right.
      * left. destruct Hp as [-> | ->]; [right; by left|by left].
      * right. eauto.
Qed.


Lemma setMonthlyBudget_access_wp sender h proof s :
  state_shape s ->
  FHE.fromExternal (this s) sender h proof (fhe s) = Some h ->
  wp (setMonthlyBudget sender h proof)
     (fun _ s' => setMonthlyBudget_access sender s s') s.
Proof.
  intros [Hwf Hacc Htx Hcat] Hin.
  specialize (Hacc sender) as [Hb He Hg _ _].
  destruct s as [[n cts al ins] t acc tx cats ev].
  destruct (account_cases acc sender) as (b & e & g & o & w & m & Hdef & Hid).
  unfold account in *.
  cbn [fhe this accounts] in *. rewrite Hdef in *.
  by eapply setMonthlyBudget_access_explicit.
Qed.




(** A call of [setMonthlyBudget] that goes through extends the access
    list by exactly this: the contract and the caller may use the new
    budget and the two flags. *)
Theorem setMonthlyBudget_grants s sender h proof s' :
  reachable s ->
  setMonthlyBudget sender h proof s = Some (tt, s') ->
  let a' := account s' sender in
  forall v who,
    (v, who) ∈ acl (fhe s') <->
    (v, who) ∈ acl (fhe s) \/
    (v ∈ [monthlyBudget a'; isOverBudget a'; isBudgetWarning a'] /\
     (who = this s \/ who = sender)).
Proof.
  intros Hr Hrun a' v who.
  pose proof (reachable_shape s Hr) as Hs.
  pose proof (call_accepts_input _ _ _ _ _ _ Hs Hrun) as Hin.
  pose proof (setMonthlyBudget_access_wp sender h proof s Hs Hin) as Hwp.
  unfold wp in Hwp. rewrite Hrun in Hwp.
  unfold setMonthlyBudget_access in Hwp. cbv zeta in Hwp. fold a' in Hwp.
  rewrite Hwp, elem_of_granted. split.
  - intros [Hal | (v' & Hv' & Hp)]; [by left|right].
    assert (v = v' /\ (who = this s \/ who = sender)) as [<- Hw]
      by (destruct Hp as [[= -> ->] | [= -> ->]]; auto).
    done.
  - intros [Hal | [Hv Hw]]; [by left|right].
    exists v. split; [done|].
    destruct Hw as [-> | ->]; auto.
Qed.

(** After setting her budget Alice may decrypt it. *)
Lemma setMonthlyBudget_grants_witness :
  (getMonthlyBudget Demo.alice Demo.s4, Demo.alice) ∈ acl (fhe Demo.s4).
Proof.
  apply (setMonthlyBudget_grants Demo.s3 Demo.alice 14%N [3%N] Demo.s4
           reachable_s3 run_s4).
  right. split; [by left|by right].
Defined.

End LedgerFacts.


(** ** The frontend *)

Module HookFacts.
Import Hook.
#[local] Open Scope hook_scope.
#[local] Open Scope string_scope.

(** *** Contract lookup *)

(** C8.  [getLedgerByChainId] yields an address only from an entry of
    [LedgerAddresses] for that chain whose address is not the zero
    address; an undefined chain id, a missing entry and a zero address all
    yield no address; and [isDeployed] is true exactly when an address was
    resolved. *)
Theorem getLedgerByChainId_address
    (LedgerAddresses : gmap string AddressEntry) (chainId : option N) :
  (forall a,
      li_address (getLedgerByChainId LedgerAddresses chainId) = Some a ->
      exists c entry,
        chainId = Some c /\ LedgerAddresses !! pretty c = Some entry /\
        entry_address entry = a /\ a <> ZeroAddress)
  /\ (chainId = None ->
      getLedgerByChainId LedgerAddresses chainId
      = mkLedgerInfo None None None)
  /\ (forall c, chainId = Some c -> LedgerAddresses !! pretty c = None ->
      li_address (getLedgerByChainId LedgerAddresses chainId) = None)
  /\ (forall c entry,
      chainId = Some c -> LedgerAddresses !! pretty c = Some entry ->
      entry_address entry = ZeroAddress ->
      li_address (getLedgerByChainId LedgerAddresses chainId) = None)
  /\ (isDeployed (getLedgerByChainId LedgerAddresses chainId) = Some true
      <-> is_Some (li_address (getLedgerByChainId LedgerAddresses chainId))).
Proof.
  unfold getLedgerByChainId, isDeployed.
  repeat split.
  - intros a. destruct chainId as [[|p]|]; cbn; try done.
    destruct (LedgerAddresses !! pretty (N.pos p)) as [entry|] eqn:He;
      cbn; [|done].
    case_decide as Hz; cbn; [done|].
    intros [= <-]. by exists (N.pos p), entry.
  - by intros ->.
  - intros c -> Hnone. destruct c; cbn; [done|]. by rewrite Hnone.
  - intros c entry -> He Hz. destruct c; cbn; [done|].
    rewrite He. by rewrite decide_True.
  - destruct chainId as [[|p]|]; cbn; try done.
    destruct (LedgerAddresses !! pretty (N.pos p)) as [entry|]; cbn; [|done].
    case_decide; cbn; [done|]. by eexists.
  - destruct chainId as [[|p]|]; cbn; try by intros [? [=]].
    destruct (LedgerAddresses !! pretty (N.pos p)) as [entry|]; cbn;
      [|by intros [? [=]]].
    case_decide as Hz; cbn; [by intros [? [=]]|].
    intros _. by rewrite bool_decide_false.
Qed.

(** On the demo table: chain 31337 resolves, Sepolia holds the zero
    address. *)
Example getLedgerByChainId_demo :
  li_address (getLedgerByChainId demoTable (Some 31337%N)) = Some demoLedger
  /\ li_address (getLedgerByChainId demoTable (Some 11155111%N)) = None
  /\ li_address (getLedgerByChainId demoTable (Some 1%N)) = None
  /\ li_address (getLedgerByChainId demoTable None) = None.
Proof. vm_compute. done. Qed.

(** *** Mock bootstrap *)

(** C9.  When both [eip712Domain()] calls answer, the mock instance is
    created with gateway chain id 55815 and with the verifying-contract
    addresses taken from component 4 of the two answers; the metadata
    addresses are passed on as the verifier contracts themselves. *)
Theorem fhevmMockCreateInstance_config chain parameters inputDomain kmsDomain :
  chain (rpcUrl parameters) (InputVerifierAddress (metadata parameters))
    = inl inputDomain ->
  chain (rpcUrl parameters) (KMSVerifierAddress (metadata parameters))
    = inl kmsDomain ->
  exists inst,
    fhevmMockCreateInstance chain parameters = inl inst /\
    gatewayChainId (mock_config inst) = 55815%N /\
    verifyingContractAddressInputVerification (mock_config inst)
      = domain_verifyingContract inputDomain /\
    verifyingContractAddressDecryption (mock_config inst)
      = domain_verifyingContract kmsDomain /\
    inputVerifierContractAddress (mock_config inst)
      = InputVerifierAddress (metadata parameters) /\
    kmsContractAddress (mock_config inst)
      = KMSVerifierAddress (metadata parameters) /\
    aclContractAddress (mock_config inst) = ACLAddress (metadata parameters) /\
    config_chainId (mock_config inst) = mock_chainId parameters.
Proof.
  intros Hi Hk. unfold fhevmMockCreateInstance. rewrite Hi, Hk.
  eexists. by repeat split.
Qed.

(** On the demo chain the verifying contracts differ from the verifier
    contracts named in the metadata, and the instance gets the former. *)
Lemma fhevmMockCreateInstance_config_witness :
  exists inst,
    fhevmMockCreateInstance demoChain demoParameters = inl inst /\
    gatewayChainId (mock_config inst) = 55815%N /\
    verifyingContractAddressInputVerification (mock_config inst)
      = Hex "812b06e1CDCE800494b79fFE4f925A504a9A9810" /\
    verifyingContractAddressInputVerification (mock_config inst)
      <> InputVerifierAddress (metadata demoParameters) /\
    verifyingContractAddressDecryption (mock_config inst)
      = Hex "5ffdaAB0373E62E2ea2944776209aEf29E631A64" /\
    verifyingContractAddressDecryption (mock_config inst)
      <> KMSVerifierAddress (metadata demoParameters).
Proof.
  destruct (fhevmMockCreateInstance_config demoChain demoParameters
              (mkEip712Domain 15 "InputVerification" "1" 10901
                 (Hex "812b06e1CDCE800494b79fFE4f925A504a9A9810") 0 [])
              (mkEip712Domain 15 "Decryption" "1" 10901
                 (Hex "5ffdaAB0373E62E2ea2944776209aEf29E631A64") 0 [])
              eq_refl eq_refl)
    as (inst & Hrun & Hg & Hvi & Hvd & _).
  exists inst. rewrite Hvi, Hvd.
  repeat split; try done; vm_compute; congruence.
Defined.

(** A rejected [eip712Domain()] call makes the bootstrapper reject. *)
Lemma fhevmMockCreateInstance_rejects chain parameters e :
  chain (rpcUrl parameters) (InputVerifierAddress (metadata parameters))
    = inr e ->
  fhevmMockCreateInstance chain parameters = inr e.
Proof. intros Hi. unfold fhevmMockCreateInstance. by rewrite Hi. Qed.

(** *** The staleness guard *)

(** [isStale] is false exactly when the three captured values are still
    the current ones. *)
Lemma isStale_sameIdentity r a s w :
  li_address (ledger r) = Some a -> ethersSigner r = Some s ->
  isStale a (chainId r) s w = false <-> sameIdentity r (env w).
Proof.
  intros Ha Hs. unfold isStale, sameIdentity, sameChain, sameSigner.
  rewrite Ha, Hs, !orb_false_iff, !negb_false_iff, !bool_decide_eq_true.
  naive_solver.
Qed.

Lemma isStale_true r a s w :
  li_address (ledger r) = Some a -> ethersSigner r = Some s ->
  isStale a (chainId r) s w = true -> ~ sameIdentity r (env w).
Proof.
  intros Ha Hs Hst Hsame.
  apply (isStale_sameIdentity r a s w Ha Hs) in Hsame. congruence.
Qed.

#[local] Arguments isStale : simpl never.
#[local] Arguments showClear : simpl never.
#[local] Arguments showStatus : simpl never.
#[local] Arguments hexlify : simpl never.
#[local] Arguments String.append : simpl never.

(** *** Rules for running a handler step by step *)

Section PostRules.
Context {A B : Type}.

Lemma post_bind (m : Run A) (k : A -> Run B) Q w :
  post m (fun o w' => match o with
                      | Normal a => post (k a) Q w'
                      | Returned => Q Returned w'
                      | Thrown e => Q (Thrown e) w'
                      end) w ->
  post (bind m k) Q w.
Proof. unfold post, bind. by destruct (m w) as [[a| |e] w']. Qed.

Lemma post_ret (a : A) (Q : Outcome A -> World -> Prop) w :
  Q (Normal a) w -> post (ret a) Q w.
Proof. done. Qed.

Lemma post_return (Q : Outcome A -> World -> Prop) w :
  Q Returned w -> post return_ Q w.
Proof. done. Qed.

Lemma post_throw e (Q : Outcome A -> World -> Prop) w :
  Q (Thrown e) w -> post (throw e) Q w.
Proof. done. Qed.

Lemma post_get (f : World -> A) (Q : Outcome A -> World -> Prop) w :
  Q (Normal (f w)) w -> post (get f) Q w.
Proof. done. Qed.

Lemma post_tryFinally (body : Run A) (fin : Run unit) Q w :
  post body (fun o w1 =>
    post fin (fun o2 w2 =>
      Q (match o2 with
         | Normal _ => o
         | Returned => Returned
         | Thrown e => Thrown e
         end) w2) w1) w ->
  post (tryFinally body fin) Q w.
Proof.
  unfold post, tryFinally. destruct (body w) as [o w1]. cbn.
  by destruct (fin w1) as [[u| |e] w2].
Qed.

Lemma post_tryCatch (body : Run A) (handler : string -> Run A) Q w :
  post body (fun o w1 => match o with
                         | Thrown e => post (handler e) Q w1
                         | Normal a => Q (Normal a) w1
                         | Returned => Q Returned w1
                         end) w ->
  post (tryCatch body handler) Q w.
Proof.
  unfold post, tryCatch. by destruct (body w) as [[a| |e] w1].
Qed.

Lemma post_detached (m : Run A) (Q : Outcome unit -> World -> Prop) w :
  post m (fun _ w' => Q (Normal tt) w') w -> post (detached m) Q w.
Proof. done. Qed.

Lemma post_exec (m : Run A) (Q : World -> Prop) w :
  post m (fun _ w' => Q w') w -> Q (exec m w).
Proof. done. Qed.

End PostRules.

Lemma post_modify (f : World -> World) (Q : Outcome unit -> World -> Prop) w :
  Q (Normal tt) (f w) -> post (modify f) Q w.
Proof. done. Qed.

Ltac hook_simpl :=
  cbn beta iota zeta delta
    [fst snd cells clearBalanceRef isRefreshingRef isDecryptingRef
     isSubmittingRef env calls after settled id orb app].

(** One step of a handler. *)
Ltac hstep :=
  lazymatch goal with
  | |- post (bind _ _) _ _ => apply post_bind
  | |- post (ret _) _ _ => apply post_ret
  | |- post return_ _ _ => apply post_return
  | |- post (throw _) _ _ => apply post_throw
  | |- post (get _) _ _ => apply post_get
  | |- post (modify _) _ _ => apply post_modify
  | |- post (tryFinally _ _) _ _ => apply post_tryFinally
  | |- post (tryCatch _ _) _ _ => apply post_tryCatch
  | |- post (detached _) _ _ => apply post_detached
  | |- post (if ?b then _ else _) _ _ =>
      first [ match goal with H : b = _ |- _ => rewrite H end
            | destruct b eqn:? ]
  | |- post (match ?x with _ => _ end) _ _ =>
      first [ match goal with H : x = _ |- _ => rewrite H end
            | destruct x eqn:? ]
  | |- post (await _ _) _ _ => unfold await
  | |- post (awaitTimeout _ _) _ _ => unfold awaitTimeout
  | |- post (add32 _ _) _ _ => unfold add32
  | |- post (call _) _ _ => unfold call
  | |- post (setEnv _) _ _ => unfold setEnv
  | |- post (setState _ _) _ _ => unfold setState
  | |- post (setMessage _) _ _ => unfold setMessage
  | |- post (setClearBalance _) _ _ => unfold setClearBalance
  | |- post (setClearMonthlyExpense _) _ _ => unfold setClearMonthlyExpense
  | |- post (setClearMonthlyBudget _) _ _ => unfold setClearMonthlyBudget
  | |- post (setIsDecrypting _) _ _ => unfold setIsDecrypting
  | |- post (setIsRefreshing _) _ _ => unfold setIsRefreshing
  | |- post (setIsSubmitting _) _ _ => unfold setIsSubmitting
  | |- post (setBalanceHandle _) _ _ => unfold setBalanceHandle
  | |- post (setMonthlyExpenseHandle _) _ _ => unfold setMonthlyExpenseHandle
  | |- post (setMonthlyBudgetHandle _) _ _ => unfold setMonthlyBudgetHandle
  | |- post (setIsOverBudgetHandle _) _ _ => unfold setIsOverBudgetHandle
  | |- post (setIsBudgetWarningHandle _) _ _ =>
      unfold setIsBudgetWarningHandle
  | |- post (setClearBalanceRef _) _ _ => unfold setClearBalanceRef
  | |- post (setIsDecryptingRef _) _ _ => unfold setIsDecryptingRef
  | |- post (setIsRefreshingRef _) _ _ => unfold setIsRefreshingRef
  | |- post (setIsSubmittingRef _) _ _ => unfold setIsSubmittingRef
  | |- post (refreshData_begin _) _ _ => unfold refreshData_begin
  | |- post (refreshData_settle _ _) _ _ => unfold refreshData_settle
  end; hook_simpl.

Ltac hrun := repeat hstep.

Lemma drop_app_length' {A} (l k : list A) : drop (length l) (l ++ k) = k.
Proof. by rewrite drop_app_length. Qed.

(** Bring [drop (length l) (((l ++ [a]) ++ [b]) ++ ...)] to a list. *)
Ltac emitted_norm :=
  rewrite ?drop_all;
  repeat rewrite <- app_assoc;
  rewrite ?drop_app_length'; cbn [app].

(** Turn the recorded outcomes of the [isStale] checks into statements
    about the environment at that point. *)
Ltac stale_facts r :=
  repeat match goal with
  | Ha : li_address (ledger r) = Some ?a, Hs : ethersSigner r = Some ?s,
    H : isStale ?a (chainId r) ?s ?W = false |- _ =>
      apply (proj1 (isStale_sameIdentity r a s W Ha Hs)) in H;
      cbn [env] in H
  | Ha : li_address (ledger r) = Some ?a, Hs : ethersSigner r = Some ?s,
    H : isStale ?a (chainId r) ?s ?W = true |- _ =>
      apply (isStale_true r a s W Ha Hs) in H;
      cbn [env] in H
  end.

(** Run a handler from an arbitrary world, down to the leaves. *)
Ltac hook_run r w :=
  unfold emitted;
  match goal with
  | |- context [exec ?m w] => pattern (exec m w); apply post_exec
  end;
  destruct w as [cs cb rr dr sr e cl];
  unfold refreshData, decryptBalance, decryptStats, addTransaction,
    setBudget;
  hook_simpl; hrun; hook_simpl; emitted_norm; intros;
  stale_facts r.

Lemma truthyString_Some h s : truthyString h = Some s -> h = Some s /\ s <> EmptyString.
Proof.
  destruct h as [[|c t]|]; cbn; [done| |done].
  intros [= <-]. by split.
Qed.

(** *** Decryption is on demand *)

Lemma refreshData_no_decrypt r res w :
  filter isUserDecrypt (emitted (refreshData r res) w) = [].
Proof. hook_run r w; reflexivity. Qed.

Lemma decryptBalance_decrypts_only_on_demand r sigR decR w :
  filter isUserDecrypt (emitted (decryptBalance r sigR decR) w) <> [] ->
  exists h,
    balanceHandle r = Some h /\ h <> EmptyString /\
    (cv_handle <$> clearBalanceRef w) <> Some h /\ h <> ZeroHash.
Proof.
  hook_run r w; try done.
  all: match goal with
       | H : truthyString _ = Some ?bh |- _ =>
           exists bh; apply truthyString_Some in H as [? ?]
       end.
  all: repeat match goal with
       | H : bool_decide _ = false |- _ => apply bool_decide_eq_false in H
       end.
  all: by repeat split.
Qed.

Lemma decryptBalance_zero_hash r sigR decR w :
  balanceHandle r = Some ZeroHash ->
  emitted (decryptBalance r sigR decR) w = [] /\
  (decryptBalanceReady r w ->
   cells (exec (decryptBalance r sigR decR) w) ClearBalance
     = VClear (mkClearValue ZeroHash (Some (CBigint 0))) /\
   clearBalanceRef (exec (decryptBalance r sigR decR) w)
     = Some (mkClearValue ZeroHash (Some (CBigint 0)))).
Proof.
  unfold decryptBalanceReady.
  hook_run r w.
  all: match goal with H : balanceHandle _ = Some ZeroHash |- _ =>
         rewrite H in *; cbn [truthyString ZeroHash] in * end.
  all: repeat match goal with
       | H : bool_decide _ = false |- _ => apply bool_decide_eq_false in H
       | H : bool_decide _ = true |- _ => apply bool_decide_eq_true in H
       | H : Some _ = Some _ |- _ => injection H as <-
       end.
  all: try done.
  all: split; [done|]; cbn [clearBalanceRef isRefreshingRef isDecryptingRef].
  all: intros (-> & -> & Ha & Hi & Hs & Hc); try done.
  all: try (by destruct Ha); try (by destruct Hi); try (by destruct Hs).
Qed.

Lemma decryptBalance_drops_stale r sigR decR w :
  ~ sameIdentity r (after decR) -> balanceHandle r <> Some ZeroHash ->
  cells (exec (decryptBalance r sigR decR) w) ClearBalance
    = cells w ClearBalance /\
  clearBalanceRef (exec (decryptBalance r sigR decR) w) = clearBalanceRef w.
Proof.
  hook_run r w; try done.
  match goal with H : bool_decide (_ = ZeroHash) = true |- _ =>
    apply bool_decide_eq_true in H; subst end.
  match goal with H : truthyString _ = Some _ |- _ =>
    by apply truthyString_Some in H as [? _] end.
Qed.

Lemma decryptBalance_stale_before_decrypt r sigR decR w :
  ~ sameIdentity r (after sigR) ->
  filter isUserDecrypt (emitted (decryptBalance r sigR decR) w) = [].
Proof. hook_run r w; done. Qed.

(** When a check of [decryptBalance] finds the identity changed, the
    handler's last word is the "Ignore" message. *)
Lemma decryptBalance_ignore_message r sigR decR w :
  (emitted (decryptBalance r sigR decR) w <> [] ->
   (exists sig, settled sigR = inl (Some sig)) ->
   ~ sameIdentity r (after sigR) ->
   cells (exec (decryptBalance r sigR decR) w) Message
     = VString "Ignore FHEVM decryption") /\
  (filter isUserDecrypt (emitted (decryptBalance r sigR decR) w) <> [] ->
   (exists res, settled decR = inl res) ->
   ~ sameIdentity r (after decR) ->
   cells (exec (decryptBalance r sigR decR) w) Message
     = VString "Ignore FHEVM decryption").
Proof.
  split.
  all: hook_run r w; try done.
  all: by repeat match goal with H : ex _ |- _ => destruct H end.
Qed.

(** *** [decryptStats] *)

Lemma decryptStats_drops_stale r sigR decR w :
  ~ sameIdentity r (after decR) ->
  cells (exec (decryptStats r sigR decR) w) ClearMonthlyExpense
    = cells w ClearMonthlyExpense /\
  cells (exec (decryptStats r sigR decR) w) ClearMonthlyBudget
    = cells w ClearMonthlyBudget.
Proof. hook_run r w; done. Qed.

Lemma decryptStats_stale_before_decrypt r sigR decR w :
  ~ sameIdentity r (after sigR) ->
  filter isUserDecrypt (emitted (decryptStats r sigR decR) w) = [].
Proof. hook_run r w; done. Qed.

Lemma decryptStats_ignore_message r sigR decR w :
  (emitted (decryptStats r sigR decR) w <> [] ->
   (exists sig, settled sigR = inl (Some sig)) ->
   ~ sameIdentity r (after sigR) ->
   cells (exec (decryptStats r sigR decR) w) Message
     = VString "Ignore FHEVM decryption") /\
  (filter isUserDecrypt (emitted (decryptStats r sigR decR) w) <> [] ->
   (exists res, settled decR = inl res) ->
   ~ sameIdentity r (after decR) ->
   cells (exec (decryptStats r sigR decR) w) Message
     = VString "Ignore FHEVM decryption").
Proof.
  split.
  all: hook_run r w; try done.
  all: by repeat match goal with H : ex _ |- _ => destruct H end.
Qed.

(** *** [addTransaction] and [setBudget] *)

(** Settle membership of a call in a list that is written out. *)
Ltac absurd_elem :=
  repeat match goal with
  | H : ex _ |- _ => destruct H
  | H : _ ∈ [] |- _ => by apply elem_of_nil in H
  | H : _ ∈ _ :: _ |- _ => apply elem_of_cons in H as [H | H]; [done|]
  end.

(** Find a call in a list that is written out. *)
Ltac find_elem :=
  repeat match goal with
  | H : ex _ |- _ => destruct H
  | H : _ ∈ [] |- _ => by apply elem_of_nil in H
  | H : _ ∈ _ :: _ |- _ =>
      apply elem_of_cons in H as [H | H];
      [first [discriminate H | injection H as -> | injection H as <-]|]
  end.

Lemma addTransaction_writes r amount isIncome category categoryKey
    timerE addrR add32E encR txR waitR w :
  match submitter r w amount addrR encR with
  | Some (a, inst, sg, userAddr, enc) =>
      filter isContractWrite
        (emitted (addTransaction r amount isIncome category categoryKey
                    timerE addrR add32E encR txR waitR) w) =
        [CallAddTransaction a sg (head (handles enc))
           (dateNow (after encR) / 1000) category isIncome categoryKey
           (dateMonth (after encR) + 1) (inputProof enc)] /\
      take 5 (emitted (addTransaction r amount isIncome category categoryKey
                         timerE addrR add32E encR txR waitR) w) =
        [CallSetTimeout 100; CallGetAddress sg;
         CallCreateEncryptedInput inst a userAddr;
         CallAdd32 amount; CallEncrypt]
  | None =>
      filter isContractWrite
        (emitted (addTransaction r amount isIncome category categoryKey
                    timerE addrR add32E encR txR waitR) w) = []
  end.
Proof.
  unfold submitter. hook_run r w.
  all: try rewrite decide_True by done.
  all: try rewrite decide_False by done.
  all: try done.
  all: by repeat case_match.
Qed.

Lemma setBudget_writes r budget timerE addrR add32E encR txR waitR w :
  match submitter r w budget addrR encR with
  | Some (a, inst, sg, userAddr, enc) =>
      filter isContractWrite
        (emitted (setBudget r budget timerE addrR add32E encR txR waitR) w) =
        [CallSetMonthlyBudget a sg (head (handles enc)) (inputProof enc)] /\
      take 5 (emitted (setBudget r budget timerE addrR add32E encR txR waitR)
                w) =
        [CallSetTimeout 100; CallGetAddress sg;
         CallCreateEncryptedInput inst a userAddr;
         CallAdd32 budget; CallEncrypt]
  | None =>
      filter isContractWrite
        (emitted (setBudget r budget timerE addrR add32E encR txR waitR) w)
      = []
  end.
Proof.
  unfold submitter. hook_run r w.
  all: try rewrite decide_True by done.
  all: try rewrite decide_False by done.
  all: try done.
  all: by repeat case_match.
Qed.

Lemma submitter_stale r w v addrR encR :
  ~ sameIdentity r (after encR) -> submitter r w v addrR encR = None.
Proof.
  intros Hst. unfold submitter. by repeat case_match.
Qed.

Lemma submitter_range r w v addrR encR :
  isUint32 v = false -> submitter r w v addrR encR = None.
Proof.
  intros Hv. unfold submitter. rewrite Hv. by repeat case_match.
Qed.




Lemma addTransaction_refresh_gate r amount isIncome category categoryKey
    timerE addrR add32E encR txR waitR w :
  ~ sameIdentity r (after waitR) ->
  filter isRefreshCall
    (emitted (addTransaction r amount isIncome category categoryKey
                timerE addrR add32E encR txR waitR) w) = [].
Proof. hook_run r w; done. Qed.

Lemma setBudget_refresh_gate r budget timerE addrR add32E encR txR waitR w :
  ~ sameIdentity r (after waitR) ->
  filter isRefreshCall
    (emitted (setBudget r budget timerE addrR add32E encR txR waitR) w) = [].
Proof. hook_run r w; done. Qed.

Lemma addTransaction_ignore_message r amount isIncome category categoryKey
    timerE addrR add32E encR txR waitR w :
  (CallEncrypt ∈ emitted (addTransaction r amount isIncome category
                            categoryKey timerE addrR add32E encR txR waitR) w ->
   (exists enc, settled encR = inl enc) ->
   ~ sameIdentity r (after encR) ->
   cells (exec (addTransaction r amount isIncome category categoryKey
                  timerE addrR add32E encR txR waitR) w) Message
     = VString "Ignore transaction submission") /\
  ((exists h, CallTxWait h ∈
      emitted (addTransaction r amount isIncome category categoryKey
                 timerE addrR add32E encR txR waitR) w) ->
   (exists rc, settled waitR = inl rc) ->
   ~ sameIdentity r (after waitR) ->
   cells (exec (addTransaction r amount isIncome category categoryKey
                  timerE addrR add32E encR txR waitR) w) Message
     = VString "Ignore transaction submission").
Proof.
  split.
  all: hook_run r w; try done.
  all: absurd_elem.
Qed.

Lemma setBudget_ignore_message r budget timerE addrR add32E encR txR waitR w :
  (CallEncrypt ∈ emitted (setBudget r budget timerE addrR add32E encR txR waitR) w ->
   (exists enc, settled encR = inl enc) ->
   ~ sameIdentity r (after encR) ->
   cells (exec (setBudget r budget timerE addrR add32E encR txR waitR) w) Message
     = VString "Ignore budget submission") /\
  ((exists h, CallTxWait h ∈
      emitted (setBudget r budget timerE addrR add32E encR txR waitR) w) ->
   (exists rc, settled waitR = inl rc) ->
   ~ sameIdentity r (after waitR) ->
   cells (exec (setBudget r budget timerE addrR add32E encR txR waitR) w) Message
     = VString "Ignore budget submission").
Proof.
  split.
  all: hook_run r w; try done.
  all: absurd_elem.
Qed.

(** The diagnostics of [addTransaction] take each result as soon as it
    is there, whatever the identity is by then: handle and proof when
    [encrypt()] returns, the hash when the contract call returns, the
    status when the receipt arrives. *)
Lemma addTransaction_diagnostics r amount isIncome category categoryKey
    timerE addrR add32E encR txR waitR w enc :
  CallEncrypt ∈ emitted (addTransaction r amount isIncome category
                           categoryKey timerE addrR add32E encR txR waitR) w
  -> settled encR = inl enc ->
  cells (exec (addTransaction r amount isIncome category categoryKey
                 timerE addrR add32E encR txR waitR) w) LastAddAmountHandle
    = ofString (hexlify <$> head (handles enc)) /\
  cells (exec (addTransaction r amount isIncome category categoryKey
                 timerE addrR add32E encR txR waitR) w) LastAddAmountProof
    = VString (proofToString (inputProof enc)).
Proof.
  hook_run r w; try done.
  all: try absurd_elem.
  all: match goal with H : inl _ = inl _ |- _ => injection H as -> end.
  all: done.
Qed.

Lemma addTransaction_diagnostics_tx r amount isIncome category categoryKey
    timerE addrR add32E encR txR waitR w :
  (forall hash,
      CallTxWait hash ∈
        emitted (addTransaction r amount isIncome category categoryKey
                   timerE addrR add32E encR txR waitR) w ->
      settled txR = inl hash /\
      cells (exec (addTransaction r amount isIncome category categoryKey
                     timerE addrR add32E encR txR waitR) w) LastAddTxHash
        = VString hash) /\
  (forall rc,
      (exists hash, CallTxWait hash ∈
         emitted (addTransaction r amount isIncome category categoryKey
                    timerE addrR add32E encR txR waitR) w) ->
      settled waitR = inl rc ->
      cells (exec (addTransaction r amount isIncome category categoryKey
                     timerE addrR add32E encR txR waitR) w)
            LastAddReceiptStatus
        = statusValue rc).
Proof.
  split.
  all: intros x; hook_run r w; try done.
  all: try (by absurd_elem).
  all: find_elem.
  all: repeat match goal with
       | H : inl _ = inl _ |- _ => injection H as ->
       end.
  all: done.
Qed.

(** *** The claims about the hook *)

(** C1 (amended).  What the [isStale()] checks protect.  In
    [decryptBalance] and [decryptStats] no decryption is requested once the
    identity has changed after signing, and the decrypted values reach the
    React state only if contract address, chain id and signer are still
    the captured ones when [userDecrypt] returns.  In [addTransaction] and
    [setBudget] the contract is called only if they are unchanged after
    the encryption, and [refreshData] only if they are unchanged after the
    receipt.  A check that finds a change ends the handler on its
    "Ignore" message.  The diagnostic cells of [addTransaction] are not
    guarded: the handle and the proof returned by [encrypt()], the hash
    returned by the contract call and the status of the receipt are
    written whatever the identity is by then. *)
Theorem stale_results_are_dropped :
  (forall r sigR decR w,
      (~ sameIdentity r (after sigR) ->
       filter isUserDecrypt (emitted (decryptBalance r sigR decR) w) = [])
      /\ (~ sameIdentity r (after decR) -> balanceHandle r <> Some ZeroHash ->
          cells (exec (decryptBalance r sigR decR) w) ClearBalance
            = cells w ClearBalance /\
          clearBalanceRef (exec (decryptBalance r sigR decR) w)
            = clearBalanceRef w)
      /\ (emitted (decryptBalance r sigR decR) w <> [] ->
          (exists sig, settled sigR = inl (Some sig)) ->
          ~ sameIdentity r (after sigR) ->
          cells (exec (decryptBalance r sigR decR) w) Message
            = VString "Ignore FHEVM decryption")
      /\ (filter isUserDecrypt (emitted (decryptBalance r sigR decR) w) <> []
          -> (exists res, settled decR = inl res) ->
          ~ sameIdentity r (after decR) ->
          cells (exec (decryptBalance r sigR decR) w) Message
            = VString "Ignore FHEVM decryption"))
  /\ (forall r sigR decR w,
      (~ sameIdentity r (after sigR) ->
       filter isUserDecrypt (emitted (decryptStats r sigR decR) w) = [])
      /\ (~ sameIdentity r (after decR) ->
          cells (exec (decryptStats r sigR decR) w) ClearMonthlyExpense
            = cells w ClearMonthlyExpense /\
          cells (exec (decryptStats r sigR decR) w) ClearMonthlyBudget
            = cells w ClearMonthlyBudget)
      /\ (emitted (decryptStats r sigR decR) w <> [] ->
          (exists sig, settled sigR = inl (Some sig)) ->
          ~ sameIdentity r (after sigR) ->
          cells (exec (decryptStats r sigR decR) w) Message
            = VString "Ignore FHEVM decryption")
      /\ (filter isUserDecrypt (emitted (decryptStats r sigR decR) w) <> []
          -> (exists res, settled decR = inl res) ->
          ~ sameIdentity r (after decR) ->
          cells (exec (decryptStats r sigR decR) w) Message
            = VString "Ignore FHEVM decryption"))
  /\ (forall r amount isIncome category categoryKey
             timerE addrR add32E encR txR waitR w,
      let m := addTransaction r amount isIncome category categoryKey
                 timerE addrR add32E encR txR waitR in
      (~ sameIdentity r (after encR) ->
       filter isContractWrite (emitted m w) = [])
      /\ (~ sameIdentity r (after waitR) ->
          filter isRefreshCall (emitted m w) = [])
      /\ (CallEncrypt ∈ emitted m w ->
          (exists enc, settled encR = inl enc) ->
          ~ sameIdentity r (after encR) ->
          cells (exec m w) Message
            = VString "Ignore transaction submission")
      /\ ((exists h, CallTxWait h ∈ emitted m w) ->
          (exists rc, settled waitR = inl rc) ->
          ~ sameIdentity r (after waitR) ->
          cells (exec m w) Message
            = VString "Ignore transaction submission"))
  /\ (forall r budget timerE addrR add32E encR txR waitR w,
      let m := setBudget r budget timerE addrR add32E encR txR waitR in
      (~ sameIdentity r (after encR) ->
       filter isContractWrite (emitted m w) = [])
      /\ (~ sameIdentity r (after waitR) ->
          filter isRefreshCall (emitted m w) = [])
      /\ (CallEncrypt ∈ emitted m w ->
          (exists enc, settled encR = inl enc) ->
          ~ sameIdentity r (after encR) ->
          cells (exec m w) Message = VString "Ignore budget submission")
      /\ ((exists h, CallTxWait h ∈ emitted m w) ->
          (exists rc, settled waitR = inl rc) ->
          ~ sameIdentity r (after waitR) ->
          cells (exec m w) Message = VString "Ignore budget submission"))
  /\ (forall r amount isIncome category categoryKey
             timerE addrR add32E encR txR waitR w enc,
      let m := addTransaction r amount isIncome category categoryKey
                 timerE addrR add32E encR txR waitR in
      CallEncrypt ∈ emitted m w -> settled encR = inl enc ->
      cells (exec m w) LastAddAmountHandle
        = ofString (hexlify <$> head (handles enc)) /\
      cells (exec m w) LastAddAmountProof
        = VString (proofToString (inputProof enc)))
  /\ (forall r amount isIncome category categoryKey
             timerE addrR add32E encR txR waitR w,
      let m := addTransaction r amount isIncome category categoryKey
                 timerE addrR add32E encR txR waitR in
      (forall hash,
          CallTxWait hash ∈ emitted m w ->
          settled txR = inl hash /\
          cells (exec m w) LastAddTxHash = VString hash) /\
      (forall rc,
          (exists hash, CallTxWait hash ∈ emitted m w) ->
          settled waitR = inl rc ->
          cells (exec m w) LastAddReceiptStatus = statusValue rc)).
Proof.
  split; [|split; [|split; [|split; [|split]]]].
  - intros r sigR decR w.
    split; [apply decryptBalance_stale_before_decrypt|].
    split; [apply decryptBalance_drops_stale|].
    apply decryptBalance_ignore_message.
  - intros r sigR decR w.
    split; [apply decryptStats_stale_before_decrypt|].
    split; [apply decryptStats_drops_stale|].
    apply decryptStats_ignore_message.
  - intros r amount isIncome category categoryKey timerE addrR add32E encR txR waitR
      w m. subst m.
    split.
    { intros Hst.
      pose proof (addTransaction_writes r amount isIncome category
                    categoryKey timerE addrR add32E encR txR waitR w) as Hw.
      by rewrite (submitter_stale r w _ addrR encR Hst) in Hw. }
    split; [apply addTransaction_refresh_gate|].
    apply addTransaction_ignore_message.
  - intros r budget timerE addrR add32E encR txR waitR w m. subst m.
    split.
    { intros Hst.
      pose proof (setBudget_writes r budget timerE addrR add32E encR txR waitR w)
        as Hw.
      by rewrite (submitter_stale r w _ addrR encR Hst) in Hw. }
    split; [apply setBudget_refresh_gate|].
    apply setBudget_ignore_message.
  - intros r amount isIncome category categoryKey timerE addrR add32E encR
      txR waitR w enc m. subst m. apply addTransaction_diagnostics.
  - intros r amount isIncome category categoryKey timerE addrR add32E encR
      txR waitR w m. subst m. apply addTransaction_diagnostics_tx.
Qed.

(** The wallet switches chain while [encrypt()] is pending: the stale
    handle and proof are written to the [lastAddAmountHandle] and
    [lastAddAmountProof] cells all the same, before the check. *)
Lemma addTransaction_commits_when_stale :
  ~ sameIdentity (demoRender None) switchedEnv /\
  cells demoWorld LastAddAmountHandle = VUndefined /\
  cells demoWorld LastAddAmountProof = VUndefined /\
  cells (exec (addTransaction (demoRender None) 500 false 3 3 demoEnv
                 (mkResume demoEnv (inl "0xUser")) demoRangeError
                 (mkResume switchedEnv (inl demoEncrypted))
                 (mkResume demoEnv (inl "0xhash"))
                 (mkResume demoEnv (inl (Some (mkReceipt (Some 1))))))
               demoWorld) LastAddAmountHandle = VString "0xaa01" /\
  cells (exec (addTransaction (demoRender None) 500 false 3 3 demoEnv
                 (mkResume demoEnv (inl "0xUser")) demoRangeError
                 (mkResume switchedEnv (inl demoEncrypted))
                 (mkResume demoEnv (inl "0xhash"))
                 (mkResume demoEnv (inl (Some (mkReceipt (Some 1))))))
               demoWorld) LastAddAmountProof = VString "0xbb".
Proof.
  split.
  - intros (Ha & _). vm_compute in Ha. discriminate.
  - vm_compute. done.
Qed.



(** A submission of 500 on the demo chain, as the contract sees it. *)
Example addTransaction_demo :
  emitted (addTransaction (demoRender None) 500 false 3 3 demoEnv
             (mkResume demoEnv (inl "0xUser")) demoRangeError
             (mkResume demoEnv (inl demoEncrypted))
             (mkResume demoEnv (inl "0xhash"))
             (mkResume demoEnv (inr "timeout"))) demoWorld =
  [CallSetTimeout 100; CallGetAddress 2;
   CallCreateEncryptedInput 1 demoLedger "0xUser"; CallAdd32 500;
   CallEncrypt;
   CallAddTransaction demoLedger 2 (Some [Byte.xaa; Byte.x01]) 1700000000 3
     false 3 11 (inr [Byte.xbb]);
   CallTxWait "0xhash"].
Proof. vm_compute. done. Qed.

(** An amount of 2^32 stops at [add32]: nothing is encrypted or sent, and
    the error ends up in the message. *)
Example addTransaction_out_of_range_demo :
  emitted (addTransaction (demoRender None) 4294967296 false 3 3 demoEnv
             (mkResume demoEnv (inl "0xUser")) demoRangeError
             (mkResume demoEnv (inl demoEncrypted))
             (mkResume demoEnv (inl "0xhash"))
             (mkResume demoEnv (inl (Some (mkReceipt (Some 1))))))
          demoWorld =
  [CallSetTimeout 100; CallGetAddress 2;
   CallCreateEncryptedInput 1 demoLedger "0xUser"; CallAdd32 4294967296] /\
  cells (exec (addTransaction (demoRender None) 4294967296 false 3 3 demoEnv
                 (mkResume demoEnv (inl "0xUser")) demoRangeError
                 (mkResume demoEnv (inl demoEncrypted))
                 (mkResume demoEnv (inl "0xhash"))
                 (mkResume demoEnv (inl (Some (mkReceipt (Some 1))))))
               demoWorld) Message
  = VString ("Transaction failed! " ++ demoRangeError).
Proof. vm_compute. done. Qed.

(** C6 (amended).  [refreshData] never asks for a decryption.
    [decryptBalance] asks for one only for a balance handle that is
    present, differs from the cached one and is not the zero hash.  For
    the zero hash it makes no call at all, and, when its guards let it
    through, it sets the clear balance to 0 directly. *)
Theorem decryption_on_demand :
  (forall r res w,
      filter isUserDecrypt (emitted (refreshData r res) w) = [])
  /\ (forall r sigR decR w,
      filter isUserDecrypt (emitted (decryptBalance r sigR decR) w) <> [] ->
      exists h,
        balanceHandle r = Some h /\ h <> EmptyString /\
        (cv_handle <$> clearBalanceRef w) <> Some h /\ h <> ZeroHash)
  /\ (forall r sigR decR w,
      balanceHandle r = Some ZeroHash ->
      emitted (decryptBalance r sigR decR) w = [] /\
      (decryptBalanceReady r w ->
       cells (exec (decryptBalance r sigR decR) w) ClearBalance
         = VClear (mkClearValue ZeroHash (Some (CBigint 0))) /\
       clearBalanceRef (exec (decryptBalance r sigR decR) w)
         = Some (mkClearValue ZeroHash (Some (CBigint 0))))).
Proof.
  split; [|split].
  - apply refreshData_no_decrypt.
  - apply decryptBalance_decrypts_only_on_demand.
  - apply decryptBalance_zero_hash.
Qed.

(** With a refresh in flight, [decryptBalance] returns at its first guard:
    the balance handle is the zero hash, and the clear balance is not
    set. *)
Lemma decryptBalance_zero_hash_blocked :
  balanceHandle (demoRender (Some ZeroHash)) = Some ZeroHash /\
  cells (exec (decryptBalance (demoRender (Some ZeroHash))
                 (mkResume demoEnv (inl None)) (mkResume demoEnv (inl ∅)))
               refreshingWorld) ClearBalance = VUndefined /\
  cells (exec (decryptBalance (demoRender (Some ZeroHash))
                 (mkResume demoEnv (inl None)) (mkResume demoEnv (inl ∅)))
               refreshingWorld) ClearBalance
    <> VClear (mkClearValue ZeroHash (Some (CBigint 0))).
Proof. vm_compute. by repeat split. Qed.

(** Without the refresh it does. *)
Example decryptBalance_zero_hash_demo :
  cells (exec (decryptBalance (demoRender (Some ZeroHash))
                 (mkResume demoEnv (inl None)) (mkResume demoEnv (inl ∅)))
               demoWorld) ClearBalance
    = VClear (mkClearValue ZeroHash (Some (CBigint 0))).
Proof. vm_compute. done. Qed.

End HookFacts.
